(** * Dimensify (ImageResizer): the resize endpoint and the session controller

    A shallow embedding of [src/app/api/resize/route.ts] (module [Route]) and
    of the state-handling functions of [src/app/page.tsx] (modules [Page]
    and [Downloads]), with the JavaScript built-ins they rely on (module
    [JS]). *)

From Stdlib Require Import ZArith String Ascii List Bool Lia DecimalString DecimalPos.
From Stdlib Require Import Floats.SpecFloat.
From stdpp Require Import base option list gmap strings.

Import ListNotations.
Local Open Scope string_scope.
Local Open Scope Z_scope.
Local Open Scope list_scope.

(* ===================================================================== *)
(** ** JavaScript built-ins used by the sources *)
(* ===================================================================== *)

Module JS.

(** Strings are sequences of code units; the model covers the code units
    below 256 (one [ascii] each). *)

(** [Array.prototype.includes] on an array of strings; the searched value
    may be [undefined] / [null] / a non-string ([None]), which equals no
    string. *)
Definition includes (xs : list string) (x : option string) : bool :=
  match x with
  | Some s => existsb (String.eqb s) xs
  | None => false
  end.

(** [String.prototype.split] with a one-character separator. The result is
    never empty. *)
Fixpoint split (sep : ascii) (s : string) : list string :=
  match s with
  | EmptyString => [EmptyString]
  | String c rest =>
      if Ascii.eqb c sep then EmptyString :: split sep rest
      else match split sep rest with
           | seg :: segs => String c seg :: segs
           | [] => [String c EmptyString]
           end
  end.

(** [Array.prototype.pop]: the last element, [undefined] on an empty array. *)
Definition pop (xs : list string) : option string := last xs.

Definition lowerChar (c : ascii) : ascii :=
  let n := N_of_ascii c in
  if ((65 <=? n) && (n <=? 90))%N then ascii_of_N (n + 32)
  else if ((192 <=? n) && (n <=? 222) && negb (n =? 215))%N then ascii_of_N (n + 32)
  else c.

(** [String.prototype.toLowerCase]. *)
Fixpoint toLowerCase (s : string) : string :=
  match s with
  | EmptyString => EmptyString
  | String c rest => String (lowerChar c) (toLowerCase rest)
  end.

(** *** parseInt

    [parseInt(string)] without a radix. The result is [None] for NaN and
    [Some z] for the integer the digits denote. The engine rounds that
    integer to a double; rounding keeps the sign and the order against the
    constants 0, 1, 90 and 100, which is all the endpoint looks at, and
    [-0] behaves as [0] in every test made on it. *)

Definition isStrWhiteSpaceChar (c : ascii) : bool :=
  let n := N_of_ascii c in
  ((n =? 9) || (n =? 10) || (n =? 11) || (n =? 12) || (n =? 13)
   || (n =? 32) || (n =? 160))%N.

Fixpoint trimStart (s : string) : string :=
  match s with
  | String c rest => if isStrWhiteSpaceChar c then trimStart rest else s
  | EmptyString => EmptyString
  end.

Definition digitValue (c : ascii) : option Z :=
  let n := Z.of_N (N_of_ascii c) in
  if (48 <=? n) && (n <=? 57) then Some (n - 48)
  else if (97 <=? n) && (n <=? 122) then Some (n - 87)
  else if (65 <=? n) && (n <=? 90) then Some (n - 55)
  else None.

(** The longest prefix of radix-[R] digits, as a number; [acc] is the value
    read so far ([None]: no digit yet). *)
Fixpoint parseDigits (R : Z) (s : string) (acc : option Z) : option Z :=
  match s with
  | String c rest =>
      match digitValue c with
      | Some d =>
          if d <? R
          then parseDigits R rest (Some (match acc with Some a => a * R + d | None => d end))
          else acc
      | None => acc
      end
  | EmptyString => acc
  end.

Definition stripSign (s : string) : Z * string :=
  match s with
  | String c rest =>
      if Ascii.eqb c "-" then (-1, rest)
      else if Ascii.eqb c "+" then (1, rest)
      else (1, s)
  | EmptyString => (1, s)
  end.

Definition stripHexPrefix (s : string) : Z * string :=
  match s with
  | String c0 (String c1 rest) =>
      if Ascii.eqb c0 "0" && (Ascii.eqb c1 "x" || Ascii.eqb c1 "X")
      then (16, rest) else (10, s)
  | _ => (10, s)
  end.

Definition parseInt (inputString : string) : option Z :=
  let '(sign, S1) := stripSign (trimStart inputString) in
  let '(R, S2) := stripHexPrefix S1 in
  match parseDigits R S2 None with
  | Some mathInt => Some (sign * mathInt)
  | None => None
  end.

(** Tests on a number that may be NaN. *)
Definition number := option Z.

(** [!x]: NaN and 0 are falsy. *)
Definition not_ (x : number) : bool :=
  match x with None => true | Some z => z =? 0 end.

(** Every comparison with NaN is false. *)
Definition le (x : number) (k : Z) : bool :=
  match x with None => false | Some z => z <=? k end.
Definition lt (x : number) (k : Z) : bool :=
  match x with None => false | Some z => z <? k end.
Definition gt (x : number) (k : Z) : bool :=
  match x with None => false | Some z => k <? z end.
Definition ge (x : number) (k : Z) : bool :=
  match x with None => false | Some z => k <=? z end.

(** *** Doubles

    The page computes with JavaScript numbers, IEEE 754 binary64, here the
    kernel's specification of them. *)

Definition prec : Z := 53.
Definition emax : Z := 1024.

Definition double := spec_float.

(** An integer as a number (rounded to nearest-even when it needs more than
    53 bits). *)
Definition ofZ (z : Z) : double := binary_normalize prec emax z 0 false.

Definition div : double -> double -> double := SFdiv prec emax.
Definition mul : double -> double -> double := SFmul prec emax.

(** [Math.round]: the nearest integer, a tie going toward +infinity; the
    sign of a zero result is the sign of the argument. *)
Definition Math_round (x : double) : double :=
  match x with
  | S754_finite s m e =>
      if 0 <=? e then x
      else
        let k := - e in
        let n := if s then Z.neg m else Z.pos m in
        let rounded := (2 * n + 2 ^ k) / 2 ^ (k + 1) in
        if rounded =? 0 then S754_zero s else ofZ rounded
  | _ => x
  end.

(** The integer a number denotes, when it is finite and integral. *)
Definition toZ (x : double) : option Z :=
  match x with
  | S754_zero _ => Some 0
  | S754_finite s m e =>
      let n := if s then Z.neg m else Z.pos m in
      if 0 <=? e then Some (n * 2 ^ e)
      else if n mod 2 ^ (- e) =? 0 then Some (n / 2 ^ (- e)) else None
  | _ => None
  end.

(** Decimal digits of an integer, as [Number.prototype.toString] and
    template literals print one. *)
Definition digitsOfZ (z : Z) : string :=
  DecimalString.NilZero.string_of_int (Z.to_int z).

End JS.

(* ===================================================================== *)
(** ** Browser [File] objects and multipart form data *)
(* ===================================================================== *)

Module File.
(** What the sources read of a [File]: its name, its declared MIME type and
    its size in bytes. The bytes themselves are only handed on. *)
Record t := { name : string; type : string; size : Z }.
End File.

Module FormData.

(** A form entry holds a string or a file. *)
Inductive EntryValue :=
| Str (s : string)
| Blob (f : File.t).

Definition t := list (string * EntryValue).

(** [formData.get(name)]: the first entry of that name, or [null]. *)
Fixpoint get (name : string) (formData : t) : option EntryValue :=
  match formData with
  | [] => None
  | (k, v) :: rest => if String.eqb k name then Some v else get name rest
  end.

(** [formData.append(name, value)]. *)
Definition append (name : string) (v : EntryValue) (formData : t) : t :=
  formData ++ [(name, v)].

(** The string that [parseInt] sees when it is given an entry: [null] and
    file objects are converted with ToString. *)
Definition toStringArg (v : option EntryValue) : string :=
  match v with
  | None => "null"
  | Some (Str s) => s
  | Some (Blob _) => "[object File]"
  end.

(** The entry as a string value, when it is one. *)
Definition asString (v : option EntryValue) : option string :=
  match v with
  | Some (Str s) => Some s
  | _ => None
  end.

(** Truthiness of an entry: [null] and the empty string are falsy. *)
Definition truthy (v : option EntryValue) : bool :=
  match v with
  | None => false
  | Some (Str s) => negb (String.eqb s "")
  | Some (Blob _) => true
  end.

(** [.type] of the entry; a string has no such property ([undefined]). *)
Definition typeOf (v : option EntryValue) : option string :=
  match v with
  | Some (Blob f) => Some (File.type f)
  | _ => None
  end.

End FormData.

(* ===================================================================== *)
(** ** The resize endpoint: [src/app/api/resize/route.ts] *)
(* ===================================================================== *)

Module Route.

Import JS.

(** A response: [NextResponse.json({ error }, { status })], or the binary
    body with its headers (status 200). *)
Inductive Response :=
| Json (status : Z) (error : string)
| Binary (headers : list (string * string)) (body : list Byte.byte).

(** *** What is handed to the codec *)

Record Color := { r : Z; g : Z; b : Z; alpha : Z }.

Inductive Fit := fill.

Record ResizeOptions := { fit : Fit; background : Color }.

(** Options of the three encoders; an option the handler does not pass is
    [None]. *)
Inductive Encoder :=
| jpeg (quality : number) (progressive mozjpeg : option bool) (force : bool)
| webp (quality : number) (effort : Z) (nearLossless : bool) (force : bool)
| png (quality : number) (compressionLevel : Z) (force : bool).

(** [sharp(imageBuffer).resize(width, height, options).<encoder>(...)]. *)
Record Pipeline := {
  imageBuffer : File.t;
  width : number;
  height : number;
  options : ResizeOptions;
  encoder : Encoder
}.

(** The arms of the [switch (format)]. *)
Inductive SwitchArm := case_jpeg | case_webp | case_png | case_default.

Definition switchArm (format : option string) : SwitchArm :=
  match format with
  | Some f =>
      if String.eqb f "jpeg" then case_jpeg
      else if String.eqb f "jpg" then case_jpeg
      else if String.eqb f "webp" then case_webp
      else if String.eqb f "png" then case_png
      else case_default
  | None => case_default
  end.

Definition encoderOf (arm : SwitchArm) (quality : number) : Encoder :=
  match arm with
  | case_jpeg => jpeg quality (Some true) (Some true) true
  | case_webp => webp quality 6 (ge quality 90) true
  | case_png => png quality 9 true
  | case_default => jpeg (Some 100) None None true
  end.

Definition transparentBlack : Color := {| r := 0; g := 0; b := 0; alpha := 0 |}.
Definition opaqueWhite : Color := {| r := 255; g := 255; b := 255; alpha := 1 |}.

(** [format === s]. *)
Definition strictEq (format : option string) (s : string) : bool :=
  match format with
  | Some f => String.eqb f s
  | None => false
  end.

Definition backgroundFor (format : option string) : Color :=
  if strictEq format "png" then transparentBlack else opaqueWhite.

Definition mimeTypes (format : option string) : option string :=
  match format with
  | Some f =>
      if String.eqb f "jpeg" then Some "image/jpeg"
      else if String.eqb f "jpg" then Some "image/jpeg"
      else if String.eqb f "webp" then Some "image/webp"
      else if String.eqb f "png" then Some "image/png"
      else None
  | None => None
  end.

Definition dquote : string := String (ascii_of_N 34) EmptyString.

Definition responseHeaders (format : option string) : list (string * string) :=
  [ ("Content-Type", default "undefined" (mimeTypes format));
    ("Content-Disposition",
      "attachment; filename=" +:+ dquote +:+ "resized-image."
        +:+ default "null" format +:+ dquote);
    ("Cache-Control", "no-store, no-cache, must-revalidate, proxy-revalidate");
    ("Pragma", "no-cache");
    ("Expires", "0") ].

(** *** The request fields, as the handler reads them *)

Section Fields.
Variable formData : FormData.t.

Definition imageFile := FormData.get "image" formData.
Definition widthOf := parseInt (FormData.toStringArg (FormData.get "width" formData)).
Definition heightOf := parseInt (FormData.toStringArg (FormData.get "height" formData)).
Definition formatOf := FormData.asString (FormData.get "format" formData).
Definition qualityOf := parseInt (FormData.toStringArg (FormData.get "quality" formData)).

(** *** The five checks, in the order of the source *)

Definition ALLOWED_TYPES : list string :=
  ["image/jpeg"; "image/jpg"; "image/png"; "image/webp"].
Definition ALLOWED_FORMATS : list string := ["jpeg"; "jpg"; "png"; "webp"].

Definition missingImage : bool := negb (FormData.truthy imageFile).
Definition unsupportedType : bool :=
  negb (includes ALLOWED_TYPES (FormData.typeOf imageFile)).
Definition invalidDimensions : bool :=
  not_ widthOf || not_ heightOf || le widthOf 0 || le heightOf 0.
Definition invalidFormat : bool := negb (includes ALLOWED_FORMATS formatOf).
Definition invalidQuality : bool :=
  not_ qualityOf || lt qualityOf 1 || gt qualityOf 100.

(** The early returns of the handler ("Validate inputs"): [Some r] is the
    response returned, [None] lets the request through. *)
Definition validate : option Response :=
  if missingImage then Some (Json 400 "No image file provided")
  else if unsupportedType then
    Some (Json 400 "Unsupported file type. Only JPEG, JPG, PNG, and WebP images are allowed.")
  else if invalidDimensions then Some (Json 400 "Invalid dimensions provided")
  else if invalidFormat then
    Some (Json 400 "Invalid format specified. Only JPEG, JPG, PNG, and WebP are supported.")
  else if invalidQuality then Some (Json 400 "Invalid quality value")
  else None.

(** The pipeline built after validation, from the file's bytes. *)
Definition processedImage (buffer : File.t) : Pipeline :=
  {| imageBuffer := buffer;
     width := widthOf;
     height := heightOf;
     options := {| fit := fill; background := backgroundFor formatOf |};
     encoder := encoderOf (switchArm formatOf) qualityOf |}.

(** [imageFile.arrayBuffer()]: only a file has the method; calling it on
    anything else throws. *)
Definition arrayBuffer : option File.t :=
  match imageFile with
  | Some (FormData.Blob f) => Some f
  | _ => None
  end.

(** The codec: [toBuffer] yields the encoded bytes or throws ([None]). *)
Variable toBuffer : Pipeline -> option (list Byte.byte).

Definition serverError : Response := Json 500 "Failed to process image".

(** The body of the [try] after validation; every exception is caught and
    answered with the generic 500. *)
Definition process : Response :=
  match arrayBuffer with
  | None => serverError
  | Some buffer =>
      match toBuffer (processedImage buffer) with
      | Some resizedBuffer => Binary (responseHeaders formatOf) resizedBuffer
      | None => serverError
      end
  end.

Definition POST : Response :=
  match validate with
  | Some early => early
  | None => process
  end.

End Fields.

(** *** Notions used to state the endpoint's properties *)

(** The five validation failures, named as the specification names them. *)
Inductive Check :=
| MissingFile | UnsupportedType | InvalidDimensions | InvalidFormat | InvalidQuality.

Definition checkOrder : list Check :=
  [MissingFile; UnsupportedType; InvalidDimensions; InvalidFormat; InvalidQuality].

Definition fails (formData : FormData.t) (c : Check) : bool :=
  match c with
  | MissingFile => missingImage formData
  | UnsupportedType => unsupportedType formData
  | InvalidDimensions => invalidDimensions formData
  | InvalidFormat => invalidFormat formData
  | InvalidQuality => invalidQuality formData
  end.

Definition message (c : Check) : string :=
  match c with
  | MissingFile => "No image file provided"
  | UnsupportedType =>
      "Unsupported file type. Only JPEG, JPG, PNG, and WebP images are allowed."
  | InvalidDimensions => "Invalid dimensions provided"
  | InvalidFormat =>
      "Invalid format specified. Only JPEG, JPG, PNG, and WebP are supported."
  | InvalidQuality => "Invalid quality value"
  end.

(** The first check of [checkOrder] that fails. *)
Definition firstFailure (formData : FormData.t) : option Check :=
  List.find (fails formData) checkOrder.

Definition isDigit (c : ascii) : bool :=
  let n := N_of_ascii c in ((48 <=? n) && (n <=? 57))%N.

Fixpoint allDigits (s : string) : bool :=
  match s with
  | EmptyString => true
  | String c rest => isDigit c && allDigits rest
  end.

(** The specification's wording for a well-formed dimension: the decimal
    representation of a positive integer (digits only, the first not 0). *)
Definition isPositiveDecimal (s : string) : bool :=
  match s with
  | EmptyString => false
  | String c _ => negb (Ascii.eqb c "0") && allDigits s
  end.

(** What the handler rejects as a dimension: a value that [parseInt] reads
    as NaN, as zero or as a negative number. *)
Definition rejectedDimension (v : option FormData.EntryValue) : Prop :=
  match parseInt (FormData.toStringArg v) with
  | None => True
  | Some z => z <= 0
  end.

(** The specification's wording for a quality: the decimal representation
    of an integer from 1 to 100. *)
Definition isQualityDecimal (s : string) : bool :=
  isPositiveDecimal s &&
  match parseInt s with
  | Some q => q <=? 100
  | None => false
  end.

(** What each check rejects, told of the fields of the request: no image
    entry, or an empty one; an image entry that is not a file of an allowed
    type; a width or a height that [parseInt] reads as NaN, as zero or as a
    negative number; a format entry that is not one of the four format
    strings; a quality that [parseInt] reads as NaN, as less than 1 or as
    more than 100. *)
Definition violates (formData : FormData.t) (c : Check) : Prop :=
  match c with
  | MissingFile =>
      match FormData.get "image" formData with
      | None => True
      | Some (FormData.Str text) => text = EmptyString
      | Some (FormData.Blob _) => False
      end
  | UnsupportedType =>
      forall f, FormData.get "image" formData = Some (FormData.Blob f) ->
                ~ In (File.type f) ALLOWED_TYPES
  | InvalidDimensions =>
      rejectedDimension (FormData.get "width" formData) \/
      rejectedDimension (FormData.get "height" formData)
  | InvalidFormat =>
      forall fmt, FormData.get "format" formData = Some (FormData.Str fmt) ->
                  ~ In fmt ALLOWED_FORMATS
  | InvalidQuality =>
      match parseInt (FormData.toStringArg (FormData.get "quality" formData)) with
      | None => True
      | Some q => q < 1 \/ 100 < q
      end
  end.

(** The other methods. *)
Definition GET : Response := Json 405 "Method not allowed".
Definition PUT : Response := Json 405 "Method not allowed".
Definition DELETE : Response := Json 405 "Method not allowed".

End Route.

(* ===================================================================== *)
(** ** The session controller: [src/app/page.tsx] *)
(* ===================================================================== *)

Module Page.

Import JS.

(** The type ['jpeg' | 'jpg' | 'png' | 'webp']. *)
Inductive Ext := jpeg | jpg | png | webp.

Definition extString (e : Ext) : string :=
  match e with
  | jpeg => "jpeg"
  | jpg => "jpg"
  | png => "png"
  | webp => "webp"
  end.

Module ImageData.
Record t := {
  file : File.t;
  preview : string;
  width : Z;
  height : Z;
  id : string;
  ext : Ext
}.
End ImageData.

Module ResizeOptions.
Record t := {
  width : double;
  height : double;
  quality : double;
  maintainAspectRatio : bool
}.
End ResizeOptions.

(** The component state ([useState]); [resizedImages] is the object used as
    a map from image identifier to object URL. *)
Record State := {
  originalImages : list ImageData.t;
  resizedImages : gmap string string;
  isLoading : bool;
  error : option string;
  resizeOptions : ResizeOptions.t
}.

Definition initialState : State :=
  {| originalImages := [];
     resizedImages := ∅;
     isLoading := false;
     error := None;
     resizeOptions :=
       {| ResizeOptions.width := ofZ 800;
          ResizeOptions.height := ofZ 600;
          ResizeOptions.quality := ofZ 100;
          ResizeOptions.maintainAspectRatio := true |} |}.

Definition setOriginalImages (f : list ImageData.t -> list ImageData.t) (s : State) : State :=
  {| originalImages := f (originalImages s);
     resizedImages := resizedImages s;
     isLoading := isLoading s;
     error := error s;
     resizeOptions := resizeOptions s |}.

Definition setResizedImages (f : gmap string string -> gmap string string) (s : State) : State :=
  {| originalImages := originalImages s;
     resizedImages := f (resizedImages s);
     isLoading := isLoading s;
     error := error s;
     resizeOptions := resizeOptions s |}.

Definition setIsLoading (v : bool) (s : State) : State :=
  {| originalImages := originalImages s;
     resizedImages := resizedImages s;
     isLoading := v;
     error := error s;
     resizeOptions := resizeOptions s |}.

Definition setError (v : option string) (s : State) : State :=
  {| originalImages := originalImages s;
     resizedImages := resizedImages s;
     isLoading := isLoading s;
     error := v;
     resizeOptions := resizeOptions s |}.

Definition setResizeOptions (f : ResizeOptions.t -> ResizeOptions.t) (s : State) : State :=
  {| originalImages := originalImages s;
     resizedImages := resizedImages s;
     isLoading := isLoading s;
     error := error s;
     resizeOptions := f (resizeOptions s) |}.

Definition MAX_FILE_SIZE : Z := 5 * 1024 * 1024.
Definition MAX_IMAGES : Z := 10.
Definition ALLOWED_TYPES : list string :=
  ["image/jpeg"; "image/jpg"; "image/png"; "image/webp"].

(** The last dot-separated piece of the name, lower-cased:
    [file.name.split('.').pop()?.toLowerCase()]. *)
Definition extOf (file : File.t) : option string :=
  toLowerCase <$> pop (split "." (File.name file)).

Definition getExt (file : File.t) : Ext :=
  let ext := extOf file in
  if bool_decide (ext = Some "jpeg") then jpeg
  else if bool_decide (ext = Some "jpg") then jpg
  else if bool_decide (ext = Some "png") then png
  else webp.

Definition validateFile (file : File.t) : option string :=
  if File.size file >? MAX_FILE_SIZE then Some "File size must be less than 5MB"
  else if negb (includes ALLOWED_TYPES (Some (File.type file)))
  then Some "Please upload a valid image file (JPEG, PNG, or WebP)"
  else None.

(** *** Staging files

    [handleFileSelect] validates synchronously and starts one asynchronous
    load per accepted file. The callbacks of a load close over the file and
    over [originalImages.length] as [handleFileSelect] saw it. *)
Record LoadTask := {
  taskFile : File.t;
  seenLength : nat
}.

(** What the browser supplies when a load completes: the data URL read by
    the [FileReader], the decoded image's dimensions, and the identifier
    drawn from [Math.random]. *)
Record Loaded := {
  result : string;
  imgWidth : Z;
  imgHeight : Z;
  imageId : string
}.

Definition tooManyMessage (staged : nat) : string :=
  "Maximum " +:+ digitsOfZ MAX_IMAGES +:+ " images allowed. You can upload "
    +:+ digitsOfZ (MAX_IMAGES - Z.of_nat staged) +:+ " more images.".

(** The [forEach] over the files: [hasError], the state after the
    [setError] calls, and the loads started. *)
Fixpoint forEachFile (seen : nat) (fileArray : list File.t)
    (hasError : bool) (s : State) : bool * State * list LoadTask :=
  match fileArray with
  | [] => (hasError, s, [])
  | file :: rest =>
      match validateFile file with
      | Some validationError =>
          forEachFile seen rest true (setError (Some validationError) s)
      | None =>
          let '(hasError', s', tasks) := forEachFile seen rest hasError s in
          (hasError', s', {| taskFile := file; seenLength := seen |} :: tasks)
      end
  end.

Definition handleFileSelect (fileArray : list File.t) (s : State)
    : State * list LoadTask :=
  let seen := length (originalImages s) in
  if Z.of_nat seen + Z.of_nat (length fileArray) >? MAX_IMAGES
  then (setError (Some (tooManyMessage seen)) s, [])
  else
    let '(hasError, s', tasks) := forEachFile seen fileArray false s in
    (if negb hasError then setError None s' else s', tasks).

(** The [ImageData] built when a load completes. *)
Definition newImageOf (task : LoadTask) (img : Loaded) : ImageData.t :=
  {| ImageData.file := taskFile task;
     ImageData.preview := result img;
     ImageData.width := imgWidth img;
     ImageData.height := imgHeight img;
     ImageData.id := imageId img;
     ImageData.ext := getExt (taskFile task) |}.

(** [img.onload] of one load: the image is appended, and the settings are
    seeded when the length the callback closed over is 0. *)
Definition imgOnload (task : LoadTask) (img : Loaded) (s : State) : State :=
  let newImage := newImageOf task img in
  let s1 := setOriginalImages (fun prev => prev ++ [newImage]) s in
  if Nat.eqb (seenLength task) 0
  then setResizeOptions
         (fun prev =>
            {| ResizeOptions.width := ofZ (imgWidth img);
               ResizeOptions.height := ofZ (imgHeight img);
               ResizeOptions.quality := ResizeOptions.quality prev;
               ResizeOptions.maintainAspectRatio := ResizeOptions.maintainAspectRatio prev |})
         s1
  else s1.

(** The loads of a batch completing one after the other, each with what the
    browser supplied for it. *)
Fixpoint completeLoads (loads : list (LoadTask * Loaded)) (s : State) : State :=
  match loads with
  | [] => s
  | (task, img) :: rest => completeLoads rest (imgOnload task img s)
  end.

(** A whole batch-add: the files are selected and every accepted file
    loads, in the order of the files. [decoded] gives what the browser
    supplies for the accepted files. *)
Definition stageFiles (fileArray : list File.t) (decoded : list Loaded) (s : State) : State :=
  let '(s', tasks) := handleFileSelect fileArray s in
  completeLoads (zip tasks decoded) s'.

(** *** Editing the dimensions *)

Inductive Dimension := dimWidth | dimHeight.

Definition handleDimensionChange (type : Dimension) (value : double) (s : State) : State :=
  match originalImages s with
  | [] => s
  | firstImage :: _ =>
      let aspectRatio :=
        div (ofZ (ImageData.width firstImage)) (ofZ (ImageData.height firstImage)) in
      if ResizeOptions.maintainAspectRatio (resizeOptions s) then
        match type with
        | dimWidth =>
            setResizeOptions
              (fun prev =>
                 {| ResizeOptions.width := value;
                    ResizeOptions.height := Math_round (div value aspectRatio);
                    ResizeOptions.quality := ResizeOptions.quality prev;
                    ResizeOptions.maintainAspectRatio := ResizeOptions.maintainAspectRatio prev |})
              s
        | dimHeight =>
            setResizeOptions
              (fun prev =>
                 {| ResizeOptions.width := Math_round (mul value aspectRatio);
                    ResizeOptions.height := value;
                    ResizeOptions.quality := ResizeOptions.quality prev;
                    ResizeOptions.maintainAspectRatio := ResizeOptions.maintainAspectRatio prev |})
              s
        end
      else
        match type with
        | dimWidth =>
            setResizeOptions
              (fun prev =>
                 {| ResizeOptions.width := value;
                    ResizeOptions.height := ResizeOptions.height prev;
                    ResizeOptions.quality := ResizeOptions.quality prev;
                    ResizeOptions.maintainAspectRatio := ResizeOptions.maintainAspectRatio prev |})
              s
        | dimHeight =>
            setResizeOptions
              (fun prev =>
                 {| ResizeOptions.width := ResizeOptions.width prev;
                    ResizeOptions.height := value;
                    ResizeOptions.quality := ResizeOptions.quality prev;
                    ResizeOptions.maintainAspectRatio := ResizeOptions.maintainAspectRatio prev |})
              s
        end
  end.

(** *** Removing and clearing *)

Definition removeImage (imageId : string) (s : State) : State :=
  setResizedImages (fun prev => delete imageId prev)
    (setOriginalImages
       (fun prev => filter (fun img => ImageData.id img ≠ imageId) prev) s).

Definition clearAll (s : State) : State :=
  setIsLoading false
    (setError None
       (setResizedImages (fun _ => ∅) (setOriginalImages (fun _ => []) s))).

(** *** The batch resize

    [handleResize] is asynchronous: it runs up to its first [await], and is
    resumed once per response. Between two of these pieces other handlers
    may run. What the function closed over when it was called (the staged
    images and the settings of that render) and its local accumulator
    [newResizedImages] travel in a [Job]. *)

(** How one [await fetch(...)] / [await response.blob()] ends: with an
    [ok] response, for whose blob [URL.createObjectURL] gives [imageUrl];
    with a response that is not [ok]; or with a rejection, whose value is an
    [Error] with that message or ([None]) something else. *)
Inductive FetchOutcome :=
| ResponseOk (imageUrl : string)
| ResponseNotOk (status : Z)
| Rejected (message : option string).

Record Job := {
  current : ImageData.t;
  remaining : list ImageData.t;
  options : ResizeOptions.t;
  newResizedImages : gmap string string
}.

Section Resize.

(** [Number.prototype.toString]. *)
Variable toString : double -> string.

(** The form sent for one image. *)
Definition formDataFor (opts : ResizeOptions.t) (image : ImageData.t) : FormData.t :=
  FormData.append "quality" (FormData.Str (toString (ResizeOptions.quality opts)))
    (FormData.append "format" (FormData.Str (extString (ImageData.ext image)))
       (FormData.append "height" (FormData.Str (toString (ResizeOptions.height opts)))
          (FormData.append "width" (FormData.Str (toString (ResizeOptions.width opts)))
             (FormData.append "image" (FormData.Blob (ImageData.file image)) [])))).

(** From the call to the first [await]: the state after the two setters
    and, unless nothing is staged, the job with the first request. *)
Definition handleResize_call (s : State) : State * option (Job * FormData.t) :=
  match originalImages s with
  | [] => (s, None)
  | image :: rest =>
      let opts := resizeOptions s in
      (setError None (setIsLoading true s),
       Some ({| current := image; remaining := rest; options := opts;
                newResizedImages := ∅ |},
             formDataFor opts image))
  end.

(** From one [await] to the next, or to the end of the function. [s] is the
    state at the time the response arrives. *)
Definition handleResize_resume (job : Job) (outcome : FetchOutcome) (s : State)
    : State * option (Job * FormData.t) :=
  match outcome with
  | ResponseOk imageUrl =>
      let acc := <[ImageData.id (current job) := imageUrl]> (newResizedImages job) in
      match remaining job with
      | image :: rest =>
          (s, Some ({| current := image; remaining := rest; options := options job;
                       newResizedImages := acc |},
                    formDataFor (options job) image))
      | [] => (setIsLoading false (setResizedImages (fun _ => acc) s), None)
      end
  | ResponseNotOk _ =>
      (setIsLoading false
         (setError
            (Some ("Failed to resize image: " +:+ File.name (ImageData.file (current job))))
            s),
       None)
  | Rejected message =>
      (setIsLoading false (setError (Some (default "An error occurred" message)) s), None)
  end.

(** The job resumed on each outcome in turn, nothing else running in
    between: the final state, the requests issued meanwhile, and the job if
    it still waits for a response. *)
Fixpoint awaitAll (job : Job) (outcomes : list FetchOutcome) (s : State)
    : State * list FormData.t * option Job :=
  match outcomes with
  | [] => (s, [], Some job)
  | outcome :: rest =>
      match handleResize_resume job outcome s with
      | (s', Some (job', request)) =>
          let '(s'', sent, waiting) := awaitAll job' rest s' in
          (s'', request :: sent, waiting)
      | (s', None) => (s', [], None)
      end
  end.

(** A whole batch resize, run without interruption against the given
    outcomes of its requests. *)
Definition handleResize (outcomes : list FetchOutcome) (s : State)
    : State * list FormData.t * option Job :=
  match handleResize_call s with
  | (s', Some (job, request)) =>
      let '(s'', sent, waiting) := awaitAll job outcomes s' in
      (s'', request :: sent, waiting)
  | (s', None) => (s', [], None)
  end.

End Resize.

(** *** Notions used to state the controller's properties *)

(** The quotient [n / d] rounded to the nearest integer, a tie going up
    ([d] positive): the rounding the specification asks of the locked
    dimension. *)
Definition roundDiv (n d : Z) : Z := (2 * n + d) / (2 * d).

(** The quotient [n / d] lies exactly halfway between two integers. *)
Definition halfway (n d : Z) : Prop := exists k, 2 * n = d * (2 * k + 1).

(** Every key of the cache is the identifier of a staged image. *)
Definition cacheWithinStaged (s : State) : Prop :=
  forall key, is_Some (resizedImages s !! key) ->
    exists image, In image (originalImages s) /\ ImageData.id image = key.

(** The images of the session were built by [imgOnload], so their format is
    the one [getExt] infers from the file. *)
Definition extInferred (s : State) : Prop :=
  forall image, In image (originalImages s) ->
    ImageData.ext image = getExt (ImageData.file image).

(** The filename extension in the usual sense: what follows the last dot,
    and nothing when the name has no dot. *)
Definition extension (name : string) : option string :=
  match split "." name with
  | [] | [_] => None
  | pieces => last pieces
  end.

(** The files of a batch that pass [validateFile], in their order. *)
Definition accepted (fileArray : list File.t) : list File.t :=
  filter (fun file => validateFile file = None) fileArray.

(** The message left by the last rejected file of a batch, if any. *)
Definition lastRejection (fileArray : list File.t) : option string :=
  last (omap validateFile fileArray).

(** The state a failed request leaves, from the state [s] it finds. *)
Definition failedOn (image : ImageData.t) (s : State) : State :=
  setIsLoading false
    (setError (Some ("Failed to resize image: " +:+ File.name (ImageData.file image))) s).

(** What a job holds comes from the staged images. *)
Definition jobWithin (job : Job) (s : State) : Prop :=
  (forall key, is_Some (newResizedImages job !! key) ->
     exists image, In image (originalImages s) /\ ImageData.id image = key) /\
  In (current job) (originalImages s) /\
  (forall image, In image (remaining job) -> In image (originalImages s)).

(** A [toString] for the numbers the settings hold: NaN, the infinities and
    integers (printed in decimal, as JavaScript does below 1e21). *)
Definition integralToString (x : double) : string :=
  match x with
  | S754_nan => "NaN"
  | S754_infinity false => "Infinity"
  | S754_infinity true => "-Infinity"
  | _ => match toZ x with
         | Some z => digitsOfZ z
         | None => "NaN"
         end
  end.

End Page.

(* ===================================================================== *)
(** ** The rest of the page: downloads, sizes, and the link to the endpoint *)
(* ===================================================================== *)

Module Downloads.

Import JS Page.

(** [randomName]: [rand] is the eight characters taken from
    [Math.random().toString(36)]. *)
Definition randomName (rand ext : string) : string :=
  rand +:+ "_byDimensify." +:+ ext.

(** The cached URL of an image as a condition sees it: a missing key and
    the empty string are falsy. *)
Definition cached (s : State) (imageId : string) : option string :=
  match resizedImages s !! imageId with
  | Some url => if String.eqb url "" then None else Some url
  | None => None
  end.

(** [originalImages.find(img => img.id === imageId)]. *)
Definition findOriginal (imageId : string) (s : State) : option ImageData.t :=
  List.find (fun img => String.eqb (ImageData.id img) imageId) (originalImages s).

(** [handleDownload]: the link clicked, as its [href] and its [download]
    name, or nothing when no result is cached. *)
Definition handleDownload (rand : string) (imageId : string) (s : State)
    : option (string * string) :=
  match cached s imageId with
  | None => None
  | Some resizedImage =>
      let ext :=
        match findOriginal imageId s with
        | Some original => extString (ImageData.ext original)
        | None => "jpeg"
        end in
      Some (resizedImage, randomName rand ext)
  end.

(** The calls [zip.file(name, blob)] of [handleDownloadAllZip], each as the
    entry name and the URL the blob is fetched from. [rand n] is the random
    part drawn by the [n]-th call of [randomName]. *)
Fixpoint zipFiles (rand : nat -> string) (calls : nat) (images : list ImageData.t)
    (s : State) : list (string * string) :=
  match images with
  | [] => []
  | image :: rest =>
      match cached s (ImageData.id image) with
      | Some url =>
          (randomName (rand calls) (extString (ImageData.ext image)), url)
            :: zipFiles rand (S calls) rest s
      | None => zipFiles rand calls rest s
      end
  end.

(** [handleDownloadAllZip]: the entries added and the archive's name. *)
Definition handleDownloadAllZip (rand : nat -> string) (s : State)
    : list (string * string) * string :=
  (zipFiles rand 0 (originalImages s) s, "Images_byDimensify.zip").

(** [totalResizedSize]: sizes are whole numbers of bytes, whose sums are
    exact. *)
Definition totalResizedSize (s : State) : Z :=
  fold_left
    (fun acc image =>
       acc + match cached s (ImageData.id image) with
             | Some _ => File.size (ImageData.file image)
             | None => 0
             end)
    (originalImages s) 0.

(** [x.toFixed(f)] for a quotient [x = num / den] that is not negative:
    the integer [n] for which [n / 10^f] is nearest to [x], the larger one
    at a tie, printed with [f] digits after the point. The quotients below
    are sizes divided by a power of two, which doubles represent exactly. *)
Definition fixedUnits (num den : Z) (f : nat) : Z :=
  (2 * num * 10 ^ Z.of_nat f + den) / (2 * den).

Fixpoint zeros (n : nat) : string :=
  match n with
  | O => ""
  | S n' => String "0" (zeros n')
  end.

Definition showFixed (n : Z) (f : nat) : string :=
  let m := digitsOfZ n in
  let m := if (String.length m <=? f)%nat then zeros (f + 1 - String.length m) +:+ m else m in
  let k := String.length m in
  substring 0 (k - f) m +:+ "." +:+ substring (k - f) f m.

Definition toFixed (num den : Z) (f : nat) : string := showFixed (fixedUnits num den f) f.

Definition formatFileSize (size : Z) : string :=
  if size <? 1024 then digitsOfZ size +:+ " B"
  else if size <? 1024 * 1024 then toFixed size 1024 1 +:+ " KB"
  else toFixed size (1024 * 1024) 2 +:+ " MB".

(** *** A batch resize whose requests are answered by the endpoint *)

Section Online.

Variable toString : double -> string.
(** The codec behind the endpoint. *)
Variable toBuffer : Route.Pipeline -> option (list Byte.byte).
(** [URL.createObjectURL] for the response of the request with that index. *)
Variable objectURL : nat -> string.

(** What [fetch] resolves to for a response of the endpoint: [response.ok]
    is a status from 200 to 299. *)
Definition outcomeOf (index : nat) (response : Route.Response) : FetchOutcome :=
  match response with
  | Route.Binary _ _ => ResponseOk (objectURL index)
  | Route.Json status _ =>
      if (200 <=? status) && (status <=? 299) then ResponseOk (objectURL index)
      else ResponseNotOk status
  end.

(** [handleResize] with every request posted to the endpoint. *)
Definition handleResizeOnline (s : State) : State * list FormData.t * option Job :=
  handleResize toString
    (imap (fun index image =>
             outcomeOf index
               (Route.POST (formDataFor toString (resizeOptions s) image) toBuffer))
          (originalImages s))
    s.

End Online.

(** *** Notions used to state the properties *)

(** The accumulator of a batch after the given images got the given URLs,
    in order. *)
Fixpoint collect (acc : gmap string string) (images : list ImageData.t)
    (urls : list string) : gmap string string :=
  match images, urls with
  | image :: images', url :: urls' =>
      collect (<[ImageData.id image := url]> acc) images' urls'
  | _, _ => acc
  end.

(** What one user action does to the session when it runs to its end
    before the next one starts. *)
Inductive Reachable (toString : double -> string) : State -> Prop :=
| reach_initial : Reachable toString initialState
| reach_stage fileArray decoded s :
    Reachable toString s -> Reachable toString (stageFiles fileArray decoded s)
| reach_dimension type value s :
    Reachable toString s -> Reachable toString (handleDimensionChange type value s)
| reach_settings f s :
    Reachable toString s -> Reachable toString (setResizeOptions f s)
| reach_resize outcomes s :
    Reachable toString s -> Reachable toString (handleResize toString outcomes s).1.1
| reach_remove imageId s :
    Reachable toString s -> Reachable toString (removeImage imageId s)
| reach_clear s :
    Reachable toString s -> Reachable toString (clearAll s).

(** The staged images are at most ten, each from a file that passed
    [validateFile] and with the format [getExt] gives that file. *)
Definition wellStaged (s : State) : Prop :=
  Z.of_nat (length (originalImages s)) <= MAX_IMAGES /\
  forall image, In image (originalImages s) ->
    validateFile (ImageData.file image) = None /\
    ImageData.ext image = getExt (ImageData.file image).

(** The sizes of the files the given images were staged from, added up. *)
Definition originalBytes (images : list ImageData.t) : Z :=
  foldr (fun image total => File.size (ImageData.file image) + total) 0 images.

(** The MIME type the endpoint announces for a format. *)
Definition mimeOf (fmt mime : string) : Prop :=
  (fmt = "jpeg" /\ mime = "image/jpeg") \/ (fmt = "jpg" /\ mime = "image/jpeg") \/
  (fmt = "webp" /\ mime = "image/webp") \/ (fmt = "png" /\ mime = "image/png").

(** No character of the string is a dot. *)
Definition dotless (s : string) : Prop :=
  forall c, In c (list_ascii_of_string s) -> c <> "."%char.

End Downloads.

(* ===================================================================== *)
(** ** Sample requests, files and sessions *)
(* ===================================================================== *)

Module Samples.

Import JS Page.

(** A PNG upload with all five fields. *)
Definition samplePng : File.t :=
  {| File.name := "photo.png"; File.type := "image/png"; File.size := 2048 |}.

Definition request (width height format quality : string) : FormData.t :=
  [ ("image", FormData.Blob samplePng);
    ("width", FormData.Str width);
    ("height", FormData.Str height);
    ("format", FormData.Str format);
    ("quality", FormData.Str quality) ].

(** A codec that returns no bytes. *)
Definition emptyCodec (p : Route.Pipeline) : option (list Byte.byte) := Some [].

(** A codec that throws on everything it is given. *)
Definition failingCodec (p : Route.Pipeline) : option (list Byte.byte) := None.

(** Files, and what the browser supplies when it has loaded them. *)
Definition fileA : File.t :=
  {| File.name := "a.png"; File.type := "image/png"; File.size := 1000 |}.
Definition fileB : File.t :=
  {| File.name := "b.png"; File.type := "image/png"; File.size := 2000 |}.
Definition fileC : File.t :=
  {| File.name := "c.jpg"; File.type := "image/jpeg"; File.size := 3000 |}.
Definition fileBig : File.t :=
  {| File.name := "big.png"; File.type := "image/png"; File.size := 6 * 1024 * 1024 |}.
Definition fileGif : File.t :=
  {| File.name := "anim.GIF"; File.type := "image/webp"; File.size := 10 |}.
Definition fileNamedPng : File.t :=
  {| File.name := "png"; File.type := "image/png"; File.size := 10 |}.

Definition loadedA : Loaded :=
  {| result := "data:a"; imgWidth := 100; imgHeight := 50; imageId := "ida" |}.
Definition loadedB : Loaded :=
  {| result := "data:b"; imgWidth := 640; imgHeight := 480; imageId := "idb" |}.
Definition loadedC : Loaded :=
  {| result := "data:c"; imgWidth := 30; imgHeight := 40; imageId := "idc" |}.

Definition imageA : ImageData.t := newImageOf {| taskFile := fileA; seenLength := 0 |} loadedA.
Definition imageB : ImageData.t := newImageOf {| taskFile := fileB; seenLength := 0 |} loadedB.
Definition imageC : ImageData.t := newImageOf {| taskFile := fileC; seenLength := 0 |} loadedC.

(** A 100 x 145 image. *)
Definition tallImage : ImageData.t :=
  {| ImageData.file := fileA; ImageData.preview := "data:a";
     ImageData.width := 100; ImageData.height := 145;
     ImageData.id := "ida"; ImageData.ext := png |}.

(** A session holding the given images, with the default settings and the
    given lock. *)
Definition sessionWith (images : list ImageData.t) (lock : bool) : State :=
  {| originalImages := images;
     resizedImages := ∅;
     isLoading := false;
     error := None;
     resizeOptions :=
       {| ResizeOptions.width := ofZ 800;
          ResizeOptions.height := ofZ 600;
          ResizeOptions.quality := ofZ 100;
          ResizeOptions.maintainAspectRatio := lock |} |}.

(** Three images staged in one batch into a fresh session. *)
Definition threeImages : State :=
  stageFiles [fileA; fileB; fileC] [loadedA; loadedB; loadedC] initialState.

(** The outcomes of a batch whose second request fails. *)
Definition secondFails : list FetchOutcome :=
  [ResponseOk "blob:1"; ResponseNotOk 500; ResponseOk "blob:3"].

(** A session whose width was set to 0 with the lock off. *)
Definition zeroWidth : State :=
  handleDimensionChange dimWidth (ofZ 0) (sessionWith [imageA; imageB] false).

End Samples.

(* ===================================================================== *)
(** ** Properties of the JavaScript built-ins *)
(* ===================================================================== *)

Module JSFacts.

Import JS.

Example parseInt_12px : parseInt "12px" = Some 12.
Proof. reflexivity. Qed.

Example parseInt_fraction : parseInt "3.7" = Some 3.
Proof. reflexivity. Qed.

Example parseInt_x : parseInt "x" = None.
Proof. reflexivity. Qed.

Example parseInt_negative : parseInt "-5" = Some (-5).
Proof. reflexivity. Qed.

Example parseInt_hex : parseInt " 0x1F" = Some 31.
Proof. reflexivity. Qed.

Example parseInt_null : parseInt "null" = None.
Proof. reflexivity. Qed.

Example split_dots : split "." "a.b.PNG" = ["a"; "b"; "PNG"].
Proof. reflexivity. Qed.

Lemma includes_In (xs : list string) (x : option string) :
  includes xs x = true <-> exists s, x = Some s /\ In s xs.
Proof.
  unfold includes. destruct x as [s|].
  - rewrite existsb_exists. split.
    + intros (y & Hy & Heq). apply String.eqb_eq in Heq. subst. eauto.
    + intros (y & Hy & Hin). inversion Hy; subst. exists y. split; [done|].
      apply String.eqb_refl.
  - split; [done|]. intros (s & Hs & _). discriminate.
Qed.

Lemma split_nonempty (sep : ascii) (s : string) : split sep s <> [].
Proof.
  destruct s as [|c rest]; simpl; [done|].
  destruct (Ascii.eqb c sep); [done|].
  destruct (split sep rest); done.
Qed.

(** A string without the separator is its own single piece. *)
Lemma split_no_separator (sep : ascii) (s : string) :
  (forall c, In c (list_ascii_of_string s) -> c <> sep) -> split sep s = [s].
Proof.
  induction s as [|c rest IH]; simpl; intros Hno; [done|].
  destruct (Ascii.eqb_spec c sep) as [->|_].
  - exfalso. apply (Hno sep); [by left | done].
  - rewrite IH; [done|]. intros c' Hin. apply Hno. by right.
Qed.

End JSFacts.

(* ===================================================================== *)
(** ** Double-precision arithmetic on whole numbers *)
(* ===================================================================== *)

Module DoubleFacts.

Import JS.
Import Page (roundDiv, halfway).

(** Powers of two with a literal exponent, as numerals. *)
Ltac compute_pows :=
  repeat match goal with
  | |- context [2 ^ ?e] =>
      let v := eval vm_compute in (2 ^ e) in change (2 ^ e) with v
  | H : context [2 ^ ?e] |- _ =>
      let v := eval vm_compute in (2 ^ e) in change (2 ^ e) with v in H
  end.

(** *** Binary digits *)

Lemma digits2_pos_bounds (p : positive) :
  2 ^ (Z.pos (digits2_pos p) - 1) <= Z.pos p < 2 ^ Z.pos (digits2_pos p).
Proof.
  induction p as [p IH|p IH|]; cbn [digits2_pos].
  - rewrite Pos2Z.inj_succ. change (Z.pos p~1) with (2 * Z.pos p + 1).
    remember (Z.pos (digits2_pos p)) as d eqn:Hd.
    replace (Z.succ d - 1) with (Z.succ (d - 1)) by lia.
    rewrite !Z.pow_succ_r by lia. lia.
  - rewrite Pos2Z.inj_succ. change (Z.pos p~0) with (2 * Z.pos p).
    remember (Z.pos (digits2_pos p)) as d eqn:Hd.
    replace (Z.succ d - 1) with (Z.succ (d - 1)) by lia.
    rewrite !Z.pow_succ_r by lia. lia.
  - cbn. lia.
Qed.

Lemma Zdigits2_unique (m k : Z) :
  2 ^ (k - 1) <= m < 2 ^ k -> 0 < m -> Zdigits2 m = k.
Proof.
  intros Hm Hpos. destruct m as [|p|p]; try lia. cbn [Zdigits2].
  pose proof (digits2_pos_bounds p) as Hd.
  remember (Z.pos (digits2_pos p)) as d eqn:Heqd. clear Heqd.
  destruct (Z.lt_trichotomy d k) as [Hlt|[Heq|Hgt]]; [|exact Heq|].
  - pose proof (Z.pow_le_mono_r 2 d (k - 1)). lia.
  - pose proof (Z.pow_le_mono_r 2 k (d - 1)). lia.
Qed.

(** *** Shifting a mantissa to the right *)

Lemma shr_m_shr_1 (r : shr_record) :
  0 <= shr_m r -> shr_m (shr_1 r) = shr_m r / 2.
Proof.
  destruct r as [m r s]. cbn [shr_m]. intros Hm.
  destruct m as [|[p|p|]|p]; cbn [shr_1 shr_m]; try lia; try reflexivity.
  - apply (Z.div_unique _ _ _ 1); lia.
  - apply (Z.div_unique _ _ _ 0); lia.
Qed.

Lemma shr_m_iter_pos (p : positive) :
  forall r, 0 <= shr_m r ->
    shr_m (SpecFloat.iter_pos shr_1 p r) = shr_m r / 2 ^ Z.pos p.
Proof.
  assert (forall a b, 0 <= a -> 0 <= b -> forall m, m / 2 ^ a / 2 ^ b = m / 2 ^ (a + b)) as Hdd.
  { intros a b Ha Hb m. rewrite Z.pow_add_r by lia.
    apply Z.div_div; [pose proof (Z.pow_pos_nonneg 2 a); lia | apply Z.pow_pos_nonneg; lia]. }
  assert (forall m a, 0 <= m -> 0 <= m / 2 ^ a) as Hnn.
  { intros m a Hm. destruct (Z.le_gt_cases 0 a).
    - apply Z.div_pos; [exact Hm | apply Z.pow_pos_nonneg; lia].
    - rewrite Z.pow_neg_r by lia. rewrite Z.div_0_r. lia. }
  induction p as [p IH|p IH|]; intros r Hr; cbn [SpecFloat.iter_pos].
  - assert (0 <= shr_m (shr_1 r)) as H1 by (rewrite shr_m_shr_1 by exact Hr; apply (Hnn _ 1 Hr)).
    assert (0 <= shr_m (SpecFloat.iter_pos shr_1 p (shr_1 r))) as H2 by (rewrite IH by exact H1; auto).
    rewrite (IH _ H2), (IH _ H1), shr_m_shr_1 by exact Hr.
    change (shr_m r / 2) with (shr_m r / 2 ^ 1). rewrite !Hdd by lia.
    f_equal. f_equal. lia.
  - assert (0 <= shr_m (SpecFloat.iter_pos shr_1 p r)) as H2 by (rewrite IH by exact Hr; auto).
    rewrite (IH _ H2), (IH _ Hr), Hdd by lia. f_equal. f_equal. lia.
  - rewrite shr_m_shr_1 by exact Hr. reflexivity.
Qed.

Lemma shr_spec (r : shr_record) (e n : Z) :
  0 <= shr_m r -> 0 <= n ->
  exists r', shr r e n = (r', e + n) /\ shr_m r' = shr_m r / 2 ^ n.
Proof.
  intros Hr Hn. destruct n as [|p|p]; [| |lia]; cbn [shr].
  - exists r. rewrite Z.add_0_r, Z.div_1_r. done.
  - exists (SpecFloat.iter_pos shr_1 p r). split; [done|]. by apply shr_m_iter_pos.
Qed.

Lemma shr_m_of_loc (m : Z) (l : location) : shr_m (shr_record_of_loc m l) = m.
Proof. destruct l as [|[]]; reflexivity. Qed.

Lemma round_nearest_even_bounds (m : Z) (l : location) :
  m <= round_nearest_even m l <= m + 1.
Proof. destruct l as [|[]]; cbn [round_nearest_even]; try destruct (Z.even m); lia. Qed.

Lemma fexp_normal (e : Z) : -1074 <= e - 53 -> fexp 53 1024 e = e - 53.
Proof. unfold fexp, emin. lia. Qed.

(** *** Rounding to a double

    A mantissa [mx] of [d] >= 53 binary digits with exponent [ex], in the
    range of the normal numbers, is rounded to a mantissa of 53 digits: the
    [d - 53] low digits are dropped, the result is that quotient or the
    next integer, and one more digit goes when the next integer is 2^53. *)
Lemma binary_round_aux_normal (sx : bool) (mx ex : Z) (lx : location) (d : Z) :
  2 ^ (d - 1) <= mx < 2 ^ d -> 53 <= d ->
  -1074 <= ex + (d - 53) -> ex + (d - 53) <= 969 ->
  exists (m : positive) (t : Z),
    binary_round_aux 53 1024 sx mx ex lx = S754_finite sx m (ex + (d - 53) + t) /\
    2 ^ 52 <= Z.pos m < 2 ^ 53 /\
    0 <= t <= 1 /\
    mx / 2 ^ (d - 53) <= Z.pos m * 2 ^ t <= mx / 2 ^ (d - 53) + 1.
Proof.
  intros Hmx Hd Hlow Hhigh.
  assert (0 < mx) as Hpos.
  { pose proof (Z.pow_pos_nonneg 2 (d - 1)). lia. }
  assert (2 ^ 52 <= mx / 2 ^ (d - 53) < 2 ^ 53) as Hm1.
  { assert (0 < 2 ^ (d - 53)) as Hp by (apply Z.pow_pos_nonneg; lia).
    replace (d - 1) with (52 + (d - 53)) in Hmx by lia.
    replace d with (53 + (d - 53)) in Hmx at 2 by lia.
    rewrite !Z.pow_add_r in Hmx by lia.
    split.
    - apply Z.div_le_lower_bound; lia.
    - apply Z.div_lt_upper_bound; lia. }
  unfold binary_round_aux, shr_fexp.
  rewrite (Zdigits2_unique mx d Hmx Hpos).
  rewrite fexp_normal by lia.
  destruct (shr_spec (shr_record_of_loc mx lx) ex (d + ex - 53 - ex)) as (r1 & -> & Hr1).
  { rewrite shr_m_of_loc. lia. }
  { lia. }
  rewrite shr_m_of_loc in Hr1. replace (d + ex - 53 - ex) with (d - 53) in * by lia.
  pose proof (round_nearest_even_bounds (shr_m r1) (loc_of_shr_record r1)) as Hrne.
  remember (round_nearest_even (shr_m r1) (loc_of_shr_record r1)) as m2 eqn:Hm2. clear Hm2.
  rewrite Hr1 in Hrne. clear Hr1 r1.
  remember (mx / 2 ^ (d - 53)) as m1 eqn:Heqm1. clear Heqm1.
  destruct (Z.eq_dec m2 (2 ^ 53)) as [Htop|Hnot].
  - rewrite (Zdigits2_unique m2 54) by (subst m2; lia).
    rewrite fexp_normal by lia.
    destruct (shr_spec (shr_record_of_loc m2 loc_Exact) (ex + (d - 53))
                (54 + (ex + (d - 53)) - 53 - (ex + (d - 53)))) as (r2 & -> & Hr2).
    { rewrite shr_m_of_loc. lia. }
    { lia. }
    rewrite shr_m_of_loc in Hr2.
    replace (54 + (ex + (d - 53)) - 53 - (ex + (d - 53))) with 1 in * by lia.
    rewrite Htop in Hr2. change (2 ^ 53 / 2 ^ 1) with (2 ^ 52) in Hr2.
    rewrite Hr2. change (2 ^ 52) with (Z.pos 4503599627370496). cbv iota.
    destruct (Z.leb_spec (ex + (d - 53) + 1) (1024 - 53)) as [_|Hover]; [|lia].
    exists 4503599627370496%positive, 1. split; [done|]. lia.
  - rewrite (Zdigits2_unique m2 53) by lia.
    rewrite fexp_normal by lia.
    destruct (shr_spec (shr_record_of_loc m2 loc_Exact) (ex + (d - 53))
                (53 + (ex + (d - 53)) - 53 - (ex + (d - 53)))) as (r2 & -> & Hr2).
    { rewrite shr_m_of_loc. lia. }
    { lia. }
    rewrite shr_m_of_loc in Hr2.
    replace (53 + (ex + (d - 53)) - 53 - (ex + (d - 53))) with 0 in * by lia.
    rewrite Z.div_1_r in Hr2. rewrite Hr2, Z.add_0_r.
    destruct m2 as [|m|m]; [lia| |lia]. cbv iota.
    destruct (Z.leb_spec (ex + (d - 53)) (1024 - 53)) as [_|Hover]; [|lia].
    exists m, 0. rewrite Z.add_0_r, Z.mul_1_r. split; [done|]. lia.
Qed.

(** A mantissa of exactly 53 digits is kept as it is. *)
Lemma binary_round_aux_exact (sx : bool) (m : positive) (e : Z) :
  2 ^ 52 <= Z.pos m < 2 ^ 53 -> -1074 <= e <= 971 ->
  binary_round_aux 53 1024 sx (Z.pos m) e loc_Exact = S754_finite sx m e.
Proof.
  intros Hm He. unfold binary_round_aux, shr_fexp.
  rewrite (Zdigits2_unique (Z.pos m) 53) by lia.
  rewrite fexp_normal by lia.
  replace (53 + e - 53 - e) with 0 by lia. cbn [shr shr_record_of_loc shr_m loc_of_shr_record round_nearest_even].
  rewrite (Zdigits2_unique (Z.pos m) 53) by lia.
  rewrite fexp_normal by lia.
  replace (53 + e - 53 - e) with 0 by lia. cbn [shr shr_record_of_loc shr_m].
  destruct (Z.leb_spec e (1024 - 53)) as [_|Hover]; [done | lia].
Qed.

(** *** Integers as doubles *)

Lemma Pos_iter_xO (k p : positive) : Z.pos (Pos.iter xO p k) = Z.pos p * 2 ^ Z.pos k.
Proof.
  induction k as [|k IH] using Pos.peano_ind.
  - cbn [Pos.iter]. change (Z.pos p~0) with (2 * Z.pos p). change (2 ^ 1) with 2. lia.
  - rewrite Pos.iter_succ. change (Z.pos (Pos.iter xO p k)~0) with (2 * Z.pos (Pos.iter xO p k)).
    rewrite IH, Pos2Z.inj_succ.
    remember (Z.pos k) as n eqn:Hn. rewrite Z.pow_succ_r by lia. lia.
Qed.

(** An integer from 1 to 2^53 - 1 is a double exactly: its mantissa is the
    integer shifted left to 53 digits. *)
Lemma ofZ_finite (z : Z) :
  0 < z < 2 ^ 53 ->
  exists (m : positive) (e : Z),
    ofZ z = S754_finite false m e /\
    2 ^ 52 <= Z.pos m < 2 ^ 53 /\
    -52 <= e <= 0 /\
    Z.pos m = z * 2 ^ (- e).
Proof.
  intros Hz. destruct z as [|p|p]; try lia.
  unfold ofZ, prec, emax. cbn [binary_normalize]. unfold binary_round.
  pose proof (digits2_pos_bounds p) as Hd.
  remember (Z.pos (digits2_pos p)) as d eqn:Heqd.
  assert (1 <= d <= 53) as Hrange.
  { split; [lia|].
    destruct (Z.le_gt_cases d 53) as [Hle|Hgt]; [exact Hle|].
    pose proof (Z.pow_le_mono_r 2 53 (d - 1)). lia. }
  rewrite Z.add_0_r, fexp_normal by lia.
  unfold shl_align. rewrite Z.sub_0_r.
  destruct (d - 53) as [|k|k] eqn:Hk; [|lia|].
  - assert (d = 53) as -> by lia.
    rewrite binary_round_aux_exact by (change (53 - 1) with 52 in Hd; lia).
    exists p, 0. change (2 ^ (- 0)) with 1. split; [done|].
    change (53 - 1) with 52 in Hd. lia.
  - assert (2 ^ 52 <= Z.pos (Pos.iter xO p k) < 2 ^ 53 /\
            Z.pos (Pos.iter xO p k) = Z.pos p * 2 ^ (- Z.neg k)) as [Hm Heq].
    { rewrite Pos_iter_xO. change (- Z.neg k) with (Z.pos k).
      assert (Z.pos k = 53 - d) as -> by lia.
      split; [|done].
      assert (2 ^ 52 = 2 ^ (d - 1) * 2 ^ (53 - d)) as ->.
      { rewrite <- Z.pow_add_r by lia. f_equal. lia. }
      assert (2 ^ 53 = 2 ^ d * 2 ^ (53 - d)) as ->.
      { rewrite <- Z.pow_add_r by lia. f_equal. lia. }
      assert (0 < 2 ^ (53 - d)) by (apply Z.pow_pos_nonneg; lia).
      split; [apply Z.mul_le_mono_nonneg_r; lia | apply Z.mul_lt_mono_pos_r; lia]. }
    rewrite binary_round_aux_exact by lia.
    exists (Pos.iter xO p k), (Z.neg k). split; [done|]. split; [exact Hm|]. split; [lia | exact Heq].
Qed.

(** *** Quotients and brackets *)

Lemma quotient_between (Y q r N lo hi : Z) :
  0 < Y -> 0 <= r < Y -> N = Y * q + r ->
  Y * lo <= N -> N < Y * hi -> lo <= q < hi.
Proof.
  intros HY Hr -> Hlo Hhi. split.
  - destruct (Z.le_gt_cases lo q) as [Hle|Hgt]; [exact Hle|].
    assert (Y * (q + 1) <= Y * lo) by (apply Z.mul_le_mono_nonneg_l; lia). lia.
  - destruct (Z.lt_ge_cases q hi) as [Hlt|Hge]; [exact Hlt|].
    assert (Y * hi <= Y * q) by (apply Z.mul_le_mono_nonneg_l; lia). lia.
Qed.

Lemma bracket_of_quotient (Y q r lo hi : Z) :
  0 < Y -> 0 <= r < Y -> lo <= q -> q + 1 <= hi ->
  Y * lo <= Y * q + r <= Y * hi.
Proof.
  intros HY Hr Hlo Hhi.
  assert (Y * lo <= Y * q) by (apply Z.mul_le_mono_nonneg_l; lia).
  assert (Y * (q + 1) <= Y * hi) by (apply Z.mul_le_mono_nonneg_l; lia). lia.
Qed.

(** *** Division

    The quotient of two doubles with 53-digit mantissas: the result's
    mantissa [m] is within one unit of the exact quotient, scaled by the
    [T] <= 2 digits that rounding dropped. *)
Lemma div_finite (mx my : positive) (ex ey : Z) :
  2 ^ 52 <= Z.pos mx < 2 ^ 53 ->
  2 ^ 52 <= Z.pos my < 2 ^ 53 ->
  -1000 <= ex - ey <= 1000 ->
  exists (m : positive) (T : Z),
    div (S754_finite false mx ex) (S754_finite false my ey)
      = S754_finite false m (ex - ey - 53 + T) /\
    2 ^ 52 <= Z.pos m < 2 ^ 53 /\
    0 <= T <= 2 /\
    Z.pos my * ((Z.pos m - 1) * 2 ^ T) <= Z.pos mx * 2 ^ 53
      <= Z.pos my * ((Z.pos m + 1) * 2 ^ T).
Proof.
  intros Hx Hy He. unfold div, prec, emax, SFdiv, SFdiv_core_binary.
  rewrite (Zdigits2_unique (Z.pos mx) 53), (Zdigits2_unique (Z.pos my) 53) by lia.
  replace (53 + ex - (53 + ey)) with (ex - ey) by lia.
  rewrite fexp_normal by lia.
  rewrite Z.min_l by lia.
  replace (ex - ey - (ex - ey - 53)) with 53 by lia. cbv iota.
  rewrite Z.shiftl_mul_pow2 by lia.
  pose proof (Z_div_mod (Z.pos mx * 2 ^ 53) (Z.pos my) eq_refl) as Hqr.
  destruct (Z.div_eucl (Z.pos mx * 2 ^ 53) (Z.pos my)) as [q r].
  destruct Hqr as [Hq Hr]. cbn [xorb].
  remember (Z.pos mx) as X eqn:HX. remember (Z.pos my) as Y eqn:HY.
  assert (2 ^ 52 <= q < 2 ^ 54) as Hqb.
  { apply (quotient_between Y q r (X * 2 ^ 53)); lia. }
  assert (exists d, (d = 53 \/ d = 54) /\ 2 ^ (d - 1) <= q < 2 ^ d) as (d & Hd & Hqd).
  { destruct (Z.lt_ge_cases q (2 ^ 53)).
    - exists 53. split; [by left|]. change (53 - 1) with 52. lia.
    - exists 54. split; [by right|]. change (54 - 1) with 53. lia. }
  destruct (binary_round_aux_normal false q (ex - ey - 53) (new_location Y r) d Hqd)
    as (m & t & -> & Hm & Ht & Hmq); [lia..|].
  exists m, (d - 53 + t). split; [f_equal; lia|]. split; [exact Hm|]. split; [lia|].
  remember (Z.pos m) as M eqn:HM. rewrite Hq.
  pose proof (Z.div_mod q 2 ltac:(lia)) as Hq2.
  pose proof (Z.mod_pos_bound q 2 ltac:(lia)) as Hr2.
  assert (t = 0 \/ t = 1) as Ht' by lia.
  apply bracket_of_quotient; [lia | lia | |];
    destruct Hd as [-> | ->], Ht' as [-> | ->];
    compute_pows; rewrite ?Z.div_1_r in Hmq; lia.
Qed.

(** *** Multiplication

    The product of two doubles with 53-digit mantissas: the result's
    mantissa [m] is within one unit of the exact product, scaled by the [T]
    digits (52 to 54) that rounding dropped. *)
Lemma mul_finite (mx my : positive) (ex ey : Z) :
  2 ^ 52 <= Z.pos mx < 2 ^ 53 ->
  2 ^ 52 <= Z.pos my < 2 ^ 53 ->
  -1000 <= ex + ey <= 800 ->
  exists (m : positive) (T : Z),
    mul (S754_finite false mx ex) (S754_finite false my ey)
      = S754_finite false m (ex + ey + T) /\
    2 ^ 52 <= Z.pos m < 2 ^ 53 /\
    52 <= T <= 54 /\
    (Z.pos m - 1) * 2 ^ T <= Z.pos mx * Z.pos my <= (Z.pos m + 1) * 2 ^ T.
Proof.
  intros Hx Hy He. unfold mul, prec, emax, SFmul. cbn [xorb].
  rewrite Pos2Z.inj_mul.
  remember (Z.pos mx) as X eqn:HX. remember (Z.pos my) as Y eqn:HY.
  assert (2 ^ 104 <= X * Y < 2 ^ 106) as Hp.
  { assert (2 ^ 52 * 2 ^ 52 <= X * Y) by (apply Z.mul_le_mono_nonneg; lia).
    assert (X * Y < 2 ^ 53 * 2 ^ 53) by (apply Z.mul_lt_mono_nonneg; lia).
    compute_pows. lia. }
  assert (exists d, (d = 105 \/ d = 106) /\ 2 ^ (d - 1) <= X * Y < 2 ^ d) as (d & Hd & Hpd).
  { destruct (Z.lt_ge_cases (X * Y) (2 ^ 105)).
    - exists 105. split; [by left|]. change (105 - 1) with 104. lia.
    - exists 106. split; [by right|]. change (106 - 1) with 105. lia. }
  destruct (binary_round_aux_normal false (X * Y) (ex + ey) loc_Exact d Hpd)
    as (m & t & -> & Hm & Ht & Hmp); [lia..|].
  exists m, (d - 53 + t). split; [f_equal; lia|]. split; [exact Hm|]. split; [lia|].
  remember (Z.pos m) as M eqn:HM.
  assert (0 < 2 ^ (d - 53)) as Hg by (apply Z.pow_pos_nonneg; lia).
  pose proof (Z.div_mod (X * Y) (2 ^ (d - 53)) ltac:(lia)) as Hdm.
  pose proof (Z.mod_pos_bound (X * Y) (2 ^ (d - 53)) Hg) as Hrem.
  remember (X * Y / 2 ^ (d - 53)) as P1 eqn:HP1. clear HP1.
  remember (X * Y mod 2 ^ (d - 53)) as rho eqn:Hrho. clear Hrho.
  rewrite Hdm.
  rewrite Z.pow_add_r by lia.
  replace ((M - 1) * (2 ^ (d - 53) * 2 ^ t)) with (2 ^ (d - 53) * ((M - 1) * 2 ^ t)) by ring.
  replace ((M + 1) * (2 ^ (d - 53) * 2 ^ t)) with (2 ^ (d - 53) * ((M + 1) * 2 ^ t)) by ring.
  assert (t = 0 \/ t = 1) as Ht' by lia.
  apply bracket_of_quotient; [lia | lia | |];
    destruct Ht' as [-> | ->]; change (2 ^ 0) with 1 in *; change (2 ^ 1) with 2 in *; lia.
Qed.

(** *** Math.round of a double with a fraction *)

Lemma Math_round_finite (m : positive) (e : Z) :
  e < 0 ->
  Math_round (S754_finite false m e) = ofZ ((2 * Z.pos m + 2 ^ (- e)) / 2 ^ (- e + 1)).
Proof.
  intros He. unfold Math_round.
  destruct (Z.leb_spec 0 e) as [Hge|_]; [lia|]. cbv zeta.
  destruct (Z.eqb_spec ((2 * Z.pos m + 2 ^ (- e)) / 2 ^ (- e + 1)) 0) as [Hzero|Hpos];
    [|reflexivity].
  rewrite Hzero. reflexivity.
Qed.

(** *** The error of two roundings, in integers *)

(** [R] is the rounded quotient of [W] by [H] and [Q] the rounded quotient
    of [A] by [R]: [Q] is within four units of [A * H / W], at its scale. *)
Lemma div_chain (W A R Q a b P : Z) :
  0 < W -> 0 < A -> 0 < a -> 0 < b -> 0 < P ->
  2 ^ 52 <= R < 2 ^ 53 -> 2 ^ 52 <= Q < 2 ^ 53 ->
  a * (R - 1) <= W * P <= a * (R + 1) ->
  R * ((Q - 1) * b) <= A * P <= R * ((Q + 1) * b) ->
  - (4 * (W * b)) <= Q * (W * b) - A * a <= 4 * (W * b).
Proof.
  intros HW HA Ha Hb HP HR HQ [H1a H1b] [H2a H2b].
  assert (Q * b * (W * P) <= Q * b * (a * (R + 1))) as E1
    by (apply Z.mul_le_mono_nonneg_l; [apply Z.mul_nonneg_nonneg; lia | exact H1b]).
  assert (Q * b * (a * (R - 1)) <= Q * b * (W * P)) as E1'
    by (apply Z.mul_le_mono_nonneg_l; [apply Z.mul_nonneg_nonneg; lia | exact H1a]).
  assert (a * (R * ((Q - 1) * b)) <= a * (A * P)) as E2
    by (apply Z.mul_le_mono_nonneg_l; [lia | exact H2a]).
  assert (a * (A * P) <= a * (R * ((Q + 1) * b))) as E2'
    by (apply Z.mul_le_mono_nonneg_l; [lia | exact H2b]).
  assert (a * b * (R + Q) <= a * b * (4 * (R - 1))) as E3.
  { apply Z.mul_le_mono_nonneg_l; [apply Z.mul_nonneg_nonneg; lia|]. compute_pows. lia. }
  assert (b * (a * (R - 1)) <= b * (W * P)) as E4
    by (apply Z.mul_le_mono_nonneg_l; [lia | exact H1a]).
  split.
  - apply (Z.mul_le_mono_pos_l _ _ P HP). lia.
  - apply (Z.mul_le_mono_pos_l _ _ P HP). lia.
Qed.

(** [R] is the rounded quotient of [W] by [H] and [Q] the rounded product
    of [A] and [R]: [Q] is within three units of [A * W / H], at its
    scale. *)
Lemma mul_chain (W A R Q a b P : Z) :
  0 < W -> 0 < A < 2 ^ 53 -> 0 < a -> 2 ^ 52 <= b -> 0 < P ->
  2 ^ 52 <= R < 2 ^ 53 -> 2 ^ 52 <= Q < 2 ^ 53 ->
  a * (R - 1) <= W * P <= a * (R + 1) ->
  (Q - 1) * b <= A * R <= (Q + 1) * b ->
  - (3 * (a * b)) <= Q * (a * b) - A * (W * P) <= 3 * (a * b).
Proof.
  intros HW HA Ha Hb HP HR HQ [H1a H1b] [H2a H2b].
  assert (a * ((Q - 1) * b) <= a * (A * R)) as E1
    by (apply Z.mul_le_mono_nonneg_l; [lia | exact H2a]).
  assert (a * (A * R) <= a * ((Q + 1) * b)) as E1'
    by (apply Z.mul_le_mono_nonneg_l; [lia | exact H2b]).
  assert (A * (a * (R - 1)) <= A * (W * P)) as E2
    by (apply Z.mul_le_mono_nonneg_l; [lia | exact H1a]).
  assert (A * (W * P) <= A * (a * (R + 1))) as E2'
    by (apply Z.mul_le_mono_nonneg_l; [lia | exact H1b]).
  assert (a * A <= a * (2 * b)) as E3.
  { apply Z.mul_le_mono_nonneg_l; [lia|]. compute_pows. lia. }
  lia.
Qed.

(** A 53-digit mantissa [m] with exponent [kx - ky] that is within four
    units of [N / w] at its scale, for [N] below 2^48: the exponent is
    negative and the integer nearest to the double is within one half of
    [N / w]. *)
Lemma nearest_of_bound (m w N kx ky : Z) :
  2 ^ 52 <= m < 2 ^ 53 -> 0 < w -> 0 <= N < 2 ^ 48 -> 0 <= kx -> 0 <= ky ->
  - (4 * (w * 2 ^ kx)) <= m * (w * 2 ^ kx) - N * 2 ^ ky <= 4 * (w * 2 ^ kx) ->
  kx < ky /\
  - w <= 2 * (w * ((2 * m + 2 ^ (ky - kx)) / 2 ^ (ky - kx + 1)) - N) <= w.
Proof.
  intros Hm Hw HN Hkx Hky Hbound.
  assert (0 < 2 ^ kx) as Hpx by (apply Z.pow_pos_nonneg; lia).
  assert (0 < 2 ^ ky) as Hpy by (apply Z.pow_pos_nonneg; lia).
  assert (kx < ky) as Hlt.
  { destruct (Z.lt_ge_cases kx ky) as [Hlt|Hge]; [exact Hlt|]. exfalso.
    assert (2 ^ kx = 2 ^ (kx - ky) * 2 ^ ky) as Hsplit.
    { rewrite <- Z.pow_add_r by lia. f_equal. lia. }
    assert (0 < 2 ^ (kx - ky)) as Hg by (apply Z.pow_pos_nonneg; lia).
    remember (2 ^ (kx - ky)) as g eqn:Heqg. clear Heqg.
    remember (2 ^ ky) as y eqn:Heqy. clear Heqy. rewrite Hsplit in Hbound.
    assert (y * ((m - 4) * (w * g)) <= y * N) as Hc.
    { replace (y * ((m - 4) * (w * g))) with (m * (w * (g * y)) - 4 * (w * (g * y))) by ring.
      replace (y * N) with (N * y) by ring. lia. }
    apply Z.mul_le_mono_pos_l in Hc; [|exact Hpy].
    assert (1 <= w * g) as Hwg by (change 1 with (1 * 1); apply Z.mul_le_mono_nonneg; lia).
    assert ((m - 4) * 1 <= (m - 4) * (w * g)) as Hc'.
    { apply Z.mul_le_mono_nonneg_l; [compute_pows; lia | exact Hwg]. }
    compute_pows. lia. }
  split; [exact Hlt|].
  assert (2 ^ ky = 2 ^ (ky - kx) * 2 ^ kx) as Hsplit.
  { rewrite <- Z.pow_add_r by lia. f_equal. lia. }
  assert (2 ^ (ky - kx + 1) = 2 * 2 ^ (ky - kx)) as Hdouble.
  { rewrite Z.pow_add_r by lia. change (2 ^ 1) with 2. ring. }
  assert (0 < 2 ^ (ky - kx)) as HD by (apply Z.pow_pos_nonneg; lia).
  rewrite Hdouble.
  remember (2 ^ (ky - kx)) as D eqn:HeqD. clear HeqD.
  remember (2 ^ kx) as x eqn:Heqx. clear Heqx. rewrite Hsplit in Hbound.
  assert (- (4 * w) <= m * w - N * D <= 4 * w) as Hb.
  { split; apply (Z.mul_le_mono_pos_l _ _ x Hpx).
    - replace (x * - (4 * w)) with (- (4 * (w * x))) by ring.
      replace (x * (m * w - N * D)) with (m * (w * x) - N * (D * x)) by ring. lia.
    - replace (x * (4 * w)) with (4 * (w * x)) by ring.
      replace (x * (m * w - N * D)) with (m * (w * x) - N * (D * x)) by ring. lia. }
  clear Hbound Hsplit Hdouble.
  assert (2 ^ 52 * w <= m * w) as Hmw by (apply Z.mul_le_mono_nonneg_r; lia).
  assert (N * D <= (2 ^ 48 - 1) * D) as HND by (apply Z.mul_le_mono_nonneg_r; lia).
  assert (8 * w < D) as Hbig by (compute_pows; lia).
  pose proof (Z.div_mod (2 * m + D) (2 * D) ltac:(lia)) as Hdm.
  pose proof (Z.mod_pos_bound (2 * m + D) (2 * D) ltac:(lia)) as Hrem.
  remember ((2 * m + D) / (2 * D)) as r eqn:Heqr. clear Heqr.
  remember ((2 * m + D) mod (2 * D)) as mu eqn:Heqmu. clear Heqmu.
  assert (w * (2 * m + D) = w * (2 * D * r + mu)) as Hw2 by (f_equal; exact Hdm).
  assert (0 <= w * mu < w * (2 * D)) as Hwmu.
  { split; [apply Z.mul_nonneg_nonneg; lia | apply Z.mul_lt_mono_pos_l; lia]. }
  split.
  - assert (D * (2 * N - w) <= D * (2 * (w * r))) as Hgoal; [|apply Z.mul_le_mono_pos_l in Hgoal; lia].
    assert (D * (2 * N - w - 1) < D * (2 * (w * r))) as Hs; [lia|].
    apply Z.mul_lt_mono_pos_l in Hs; [|exact HD].
    apply Z.mul_le_mono_nonneg_l; lia.
  - assert (D * (2 * (w * r)) <= D * (2 * N + w)) as Hgoal; [|apply Z.mul_le_mono_pos_l in Hgoal; lia].
    assert (D * (2 * (w * r)) < D * (2 * N + w + 1)) as Hs; [lia|].
    apply Z.mul_lt_mono_pos_l in Hs; [|exact HD].
    apply Z.mul_le_mono_nonneg_l; lia.
Qed.

(** An integer within one half of [N / w] is the rounded quotient, or the
    integer below it when [N / w] lies halfway between the two. *)
Lemma nearest_roundDiv (N w r : Z) :
  0 < w -> - w <= 2 * (w * r - N) <= w ->
  r = roundDiv N w \/ (halfway N w /\ r = roundDiv N w - 1).
Proof.
  intros Hw Hr. unfold roundDiv, halfway.
  pose proof (Z.div_mod (2 * N + w) (2 * w) ltac:(lia)) as Hdm.
  pose proof (Z.mod_pos_bound (2 * N + w) (2 * w) ltac:(lia)) as Hrem.
  remember ((2 * N + w) / (2 * w)) as q eqn:Heqq. clear Heqq.
  remember ((2 * N + w) mod (2 * w)) as mu eqn:Heqmu. clear Heqmu.
  assert (r < q + 1) as Hup.
  { apply (Z.mul_lt_mono_pos_l (2 * w)); lia. }
  assert (q <= r + 1) as Hdown.
  { apply (Z.mul_le_mono_pos_l _ _ (2 * w)); lia. }
  destruct (Z.eq_dec r q) as [Heq|Hne]; [by left|]. right.
  assert (r = q - 1) as -> by lia. split; [|done].
  exists (q - 1). lia.
Qed.

(** *** The locked dimension *)

Lemma small_product (x y : Z) : 0 <= x < 2 ^ 24 -> 0 <= y < 2 ^ 24 -> 0 <= x * y < 2 ^ 48.
Proof.
  intros Hx Hy. split; [apply Z.mul_nonneg_nonneg; lia|].
  destruct (Z.eq_dec x 0) as [->|Hx0]; [compute_pows; lia|].
  assert (x * y < x * 2 ^ 24) by (apply Z.mul_lt_mono_pos_l; lia).
  assert (x * 2 ^ 24 < 2 ^ 24 * 2 ^ 24) by (apply Z.mul_lt_mono_pos_r; lia).
  compute_pows. lia.
Qed.

(** The aspect ratio of a [w] x [h] image. *)
Lemma aspectRatio_finite (w h : Z) :
  0 < w < 2 ^ 24 -> 0 < h < 2 ^ 24 ->
  exists (mw mh mr : positive) (bw bh T1 : Z),
    div (ofZ w) (ofZ h) = S754_finite false mr (bh - bw - 53 + T1) /\
    Z.pos mw = w * 2 ^ bw /\ Z.pos mh = h * 2 ^ bh /\
    0 <= bw <= 52 /\ 0 <= bh <= 52 /\ 0 <= T1 <= 2 /\
    2 ^ 52 <= Z.pos mr < 2 ^ 53 /\
    Z.pos mh * 2 ^ T1 * (Z.pos mr - 1) <= Z.pos mw * 2 ^ 53
      <= Z.pos mh * 2 ^ T1 * (Z.pos mr + 1).
Proof.
  intros Hw Hh.
  destruct (ofZ_finite w) as (mw & ew & -> & Hmw & Hew & Hw'); [compute_pows; lia|].
  destruct (ofZ_finite h) as (mh & eh & -> & Hmh & Heh & Hh'); [compute_pows; lia|].
  destruct (div_finite mw mh ew eh Hmw Hmh) as (mr & T1 & -> & Hmr & HT1 & Hr); [lia|].
  exists mw, mh, mr, (- ew), (- eh), T1.
  split; [f_equal; lia|]. split; [exact Hw'|]. split; [exact Hh'|].
  split; [lia|]. split; [lia|]. split; [exact HT1|]. split; [exact Hmr|].
  replace (Z.pos mh * 2 ^ T1 * (Z.pos mr - 1)) with (Z.pos mh * ((Z.pos mr - 1) * 2 ^ T1)) by ring.
  replace (Z.pos mh * 2 ^ T1 * (Z.pos mr + 1)) with (Z.pos mh * ((Z.pos mr + 1) * 2 ^ T1)) by ring.
  exact Hr.
Qed.

(** A width [v] under the lock: the height set is an integer within one
    half of [v * h / w]. *)
Lemma locked_height_nearest (v w h : Z) :
  0 < w < 2 ^ 24 -> 0 < h < 2 ^ 24 -> 0 <= v < 2 ^ 24 ->
  exists r,
    Math_round (div (ofZ v) (div (ofZ w) (ofZ h))) = ofZ r /\
    - w <= 2 * (w * r - v * h) <= w.
Proof.
  intros Hw Hh Hv.
  destruct (aspectRatio_finite w h Hw Hh)
    as (mw & mh & mr & bw & bh & T1 & -> & Hmw & Hmh & Hbw & Hbh & HT1 & Hmr & Hr).
  destruct (Z.eq_dec v 0) as [->|Hv0].
  { exists 0. split; [reflexivity | lia]. }
  destruct (ofZ_finite v) as (mv & ev & -> & Hmv & Hev & Hv'); [compute_pows; lia|].
  destruct (div_finite mv mr ev (bh - bw - 53 + T1) Hmv Hmr) as (mq & T2 & -> & Hmq & HT2 & Hq);
    [lia|].
  assert (0 < 2 ^ T1) as Hp1 by (apply Z.pow_pos_nonneg; lia).
  assert (0 < 2 ^ T2) as Hp2 by (apply Z.pow_pos_nonneg; lia).
  pose proof (div_chain (Z.pos mw) (Z.pos mv) (Z.pos mr) (Z.pos mq)
                (Z.pos mh * 2 ^ T1) (2 ^ T2) (2 ^ 53)
                ltac:(lia) ltac:(lia) ltac:(lia) Hp2 ltac:(lia) Hmr Hmq Hr Hq) as Hchain.
  destruct (nearest_of_bound (Z.pos mq) w (v * h) (bw + T2) (- ev + bh + T1)) as [Hlt Hnear].
  - exact Hmq.
  - lia.
  - apply small_product; lia.
  - lia.
  - lia.
  - rewrite Hmw, Hmh, Hv' in Hchain. rewrite !Z.pow_add_r by lia.
    replace (w * (2 ^ bw * 2 ^ T2)) with (w * 2 ^ bw * 2 ^ T2) by ring.
    replace (v * h * (2 ^ (- ev) * 2 ^ bh * 2 ^ T1))
      with (v * 2 ^ (- ev) * (h * 2 ^ bh * 2 ^ T1)) by ring.
    exact Hchain.
  - rewrite Math_round_finite by lia.
    replace (- (ev - (bh - bw - 53 + T1) - 53 + T2)) with (- ev + bh + T1 - (bw + T2)) by lia.
    eexists. split; [reflexivity | exact Hnear].
Qed.

(** A height [v] under the lock: the width set is an integer within one
    half of [v * w / h]. *)
Lemma locked_width_nearest (v w h : Z) :
  0 < w < 2 ^ 24 -> 0 < h < 2 ^ 24 -> 0 <= v < 2 ^ 24 ->
  exists r,
    Math_round (mul (ofZ v) (div (ofZ w) (ofZ h))) = ofZ r /\
    - h <= 2 * (h * r - v * w) <= h.
Proof.
  intros Hw Hh Hv.
  destruct (aspectRatio_finite w h Hw Hh)
    as (mw & mh & mr & bw & bh & T1 & -> & Hmw & Hmh & Hbw & Hbh & HT1 & Hmr & Hr).
  destruct (Z.eq_dec v 0) as [->|Hv0].
  { exists 0. split; [reflexivity | lia]. }
  destruct (ofZ_finite v) as (mv & ev & -> & Hmv & Hev & Hv'); [compute_pows; lia|].
  destruct (mul_finite mv mr ev (bh - bw - 53 + T1) Hmv Hmr) as (mp & T2 & -> & Hmp & HT2 & Hp);
    [lia|].
  assert (0 < 2 ^ T1) as Hp1 by (apply Z.pow_pos_nonneg; lia).
  assert (2 ^ 52 <= 2 ^ T2) as Hp2 by (apply Z.pow_le_mono_r; lia).
  pose proof (mul_chain (Z.pos mw) (Z.pos mv) (Z.pos mr) (Z.pos mp)
                (Z.pos mh * 2 ^ T1) (2 ^ T2) (2 ^ 53)
                ltac:(lia) ltac:(lia) ltac:(lia) Hp2 ltac:(lia) Hmr Hmp Hr Hp) as Hchain.
  destruct (nearest_of_bound (Z.pos mp) h (v * w) (bh + T1 + T2) (- ev + bw + 53)) as [Hlt Hnear].
  - exact Hmp.
  - lia.
  - apply small_product; lia.
  - lia.
  - lia.
  - rewrite Hmw, Hmh, Hv' in Hchain. rewrite !Z.pow_add_r by lia.
    assert (0 < h * (2 ^ bh * 2 ^ T1 * 2 ^ T2)) as Hscale.
    { assert (0 < 2 ^ bh) by (apply Z.pow_pos_nonneg; lia).
      repeat apply Z.mul_pos_pos; lia. }
    replace (h * (2 ^ bh * 2 ^ T1 * 2 ^ T2)) with (h * 2 ^ bh * 2 ^ T1 * 2 ^ T2) in * by ring.
    replace (v * w * (2 ^ (- ev) * 2 ^ bw * 2 ^ 53))
      with (v * 2 ^ (- ev) * (w * 2 ^ bw * 2 ^ 53)) by ring.
    lia.
  - rewrite Math_round_finite by lia.
    replace (- (ev + (bh - bw - 53 + T1) + T2)) with (- ev + bw + 53 - (bh + T1 + T2)) by lia.
    eexists. split; [reflexivity | exact Hnear].
Qed.

End DoubleFacts.

(* ===================================================================== *)
(** ** Properties of the resize endpoint *)
(* ===================================================================== *)

Module RouteFacts.

Import JS Route Samples.

Section Validation.
Variable formData : FormData.t.

(** [validate] answers with the message of the first failing check. *)
Lemma validate_firstFailure :
  validate formData =
    match firstFailure formData with
    | Some c => Some (Json 400 (message c))
    | None => None
    end.
Proof.
  unfold validate, firstFailure, checkOrder. simpl.
  destruct (missingImage formData); [done|].
  destruct (unsupportedType formData); [done|].
  destruct (invalidDimensions formData); [done|].
  destruct (invalidFormat formData); [done|].
  destruct (invalidQuality formData); done.
Qed.

Lemma firstFailure_Some (c : Check) :
  fails formData c = true -> exists c0, firstFailure formData = Some c0.
Proof.
  intros Hc. unfold firstFailure.
  destruct (List.find (fails formData) checkOrder) as [c0|] eqn:Hfind; [eauto|].
  exfalso. pose proof (find_none _ _ Hfind c) as Hnone.
  rewrite Hnone in Hc; [discriminate|].
  unfold checkOrder. destruct c; simpl; tauto.
Qed.

(** The check found is failing, and every check before it passes. *)
Lemma firstFailure_first (c : Check) :
  firstFailure formData = Some c ->
  fails formData c = true /\
  exists before after,
    checkOrder = before ++ c :: after /\
    forall c', In c' before -> fails formData c' = false.
Proof.
  unfold firstFailure, checkOrder. simpl.
  destruct (missingImage formData) eqn:H1.
  { intros [= <-]. split; [done|]. exists [], [UnsupportedType; InvalidDimensions; InvalidFormat; InvalidQuality].
    split; [done|]. intros c' []. }
  destruct (unsupportedType formData) eqn:H2.
  { intros [= <-]. split; [done|]. exists [MissingFile], [InvalidDimensions; InvalidFormat; InvalidQuality].
    split; [done|]. intros c' [<-|[]]; done. }
  destruct (invalidDimensions formData) eqn:H3.
  { intros [= <-]. split; [done|]. exists [MissingFile; UnsupportedType], [InvalidFormat; InvalidQuality].
    split; [done|]. intros c' [<-|[<-|[]]]; done. }
  destruct (invalidFormat formData) eqn:H4.
  { intros [= <-]. split; [done|]. exists [MissingFile; UnsupportedType; InvalidDimensions], [InvalidQuality].
    split; [done|]. intros c' [<-|[<-|[<-|[]]]]; done. }
  destruct (invalidQuality formData) eqn:H5; [|done].
  intros [= <-]. split; [done|]. exists [MissingFile; UnsupportedType; InvalidDimensions; InvalidFormat], [].
  split; [done|]. intros c' [<-|[<-|[<-|[<-|[]]]]]; done.
Qed.

End Validation.

(** Whenever one of the handler's guards holds, the first such guard decides
    the answer. *)
Lemma first_guard_decides (formData : FormData.t) (c : Check) :
  fails formData c = true ->
  exists first before after,
    checkOrder = before ++ first :: after /\
    (forall c', In c' before -> fails formData c' = false) /\
    fails formData first = true /\
    validate formData = Some (Json 400 (message first)).
Proof.
  intros Hc.
  destruct (firstFailure_Some formData c Hc) as [first Hfirst].
  destruct (firstFailure_first formData first Hfirst) as (Hfails & before & after & Horder & Hbefore).
  pose proof (validate_firstFailure formData) as Hval. rewrite Hfirst in Hval.
  exists first, before, after. done.
Qed.

(** Each guard of the handler holds exactly for the requests that violate
    the check, as told of the fields. *)
Lemma fails_violates (formData : FormData.t) (c : Check) :
  fails formData c = true <-> violates formData c.
Proof.
  destruct c; simpl.
  - unfold missingImage, imageFile.
    destruct (FormData.get "image" formData) as [[text|f]|]; simpl; [|done..].
    rewrite negb_true_iff, negb_false_iff. apply String.eqb_eq.
  - unfold unsupportedType, imageFile. rewrite negb_true_iff.
    destruct (includes ALLOWED_TYPES (FormData.typeOf (FormData.get "image" formData))) eqn:Hinc.
    + apply JSFacts.includes_In in Hinc as (type & Htype & Hin).
      destruct (FormData.get "image" formData) as [[text|f]|]; try discriminate.
      injection Htype as <-. split; [done|]. intros Hall. by destruct (Hall f eq_refl).
    + split; [|done]. intros _ f Hf Hin.
      assert (includes ALLOWED_TYPES (FormData.typeOf (FormData.get "image" formData)) = true)
        as Hyes.
      { apply JSFacts.includes_In. rewrite Hf. simpl. eauto. }
      congruence.
  - unfold invalidDimensions, rejectedDimension, widthOf, heightOf.
    destruct (parseInt (FormData.toStringArg (FormData.get "width" formData))) as [w|],
      (parseInt (FormData.toStringArg (FormData.get "height" formData))) as [h|]; simpl;
      rewrite ?orb_true_iff, ?Z.eqb_eq, ?Z.leb_le; try tauto; try lia.
  - unfold invalidFormat, formatOf. rewrite negb_true_iff.
    destruct (includes ALLOWED_FORMATS (FormData.asString (FormData.get "format" formData)))
      eqn:Hinc.
    + apply JSFacts.includes_In in Hinc as (fmt & Hfmt & Hin).
      destruct (FormData.get "format" formData) as [[text|f]|]; try discriminate.
      injection Hfmt as <-. split; [done|]. intros Hall. by destruct (Hall text eq_refl).
    + split; [|done]. intros _ fmt Hfmt Hin.
      assert (includes ALLOWED_FORMATS (FormData.asString (FormData.get "format" formData)) = true)
        as Hyes.
      { apply JSFacts.includes_In. rewrite Hfmt. simpl. eauto. }
      congruence.
  - unfold invalidQuality, qualityOf.
    destruct (parseInt (FormData.toStringArg (FormData.get "quality" formData))) as [q|]; simpl;
      [|done].
    rewrite !orb_true_iff, Z.eqb_eq, !Z.ltb_lt. lia.
Qed.

(** C4, as the handler has it. A check is violated by a request when: (1)
    there is no image entry or it is empty; (2) the image entry is not a
    file of an allowed type; (3) [parseInt] reads the width or the height
    as NaN, zero or a negative number; (4) the format entry is not one of
    jpeg, jpg, png, webp; (5) [parseInt] reads the quality as NaN, less
    than 1 or more than 100. Whenever a request violates at least one of
    them, the first violated check in that order decides the answer: the
    handler returns from its validation part with status 400 and that
    check's message, so whatever the codec would do, the response is this
    400 and not the generic 500. *)
Theorem validation_first_failure_400 (formData : FormData.t) (c : Check) :
  violates formData c ->
  exists first before after,
    checkOrder = before ++ first :: after /\
    (forall c', In c' before -> ~ violates formData c') /\
    violates formData first /\
    validate formData = Some (Json 400 (message first)) /\
    (forall toBuffer, POST formData toBuffer = Json 400 (message first)) /\
    (forall toBuffer, POST formData toBuffer <> serverError).
Proof.
  intros Hc. apply fails_violates in Hc.
  destruct (first_guard_decides formData c Hc)
    as (first & before & after & Horder & Hbefore & Hfirst & Hval).
  exists first, before, after.
  split; [done|]. split.
  { intros c' Hin Hviolated. apply fails_violates in Hviolated.
    rewrite (Hbefore c' Hin) in Hviolated. discriminate. }
  split; [by apply fails_violates|]. split; [done|]. split.
  - intros toBuffer. unfold POST. by rewrite Hval.
  - intros toBuffer. unfold POST. rewrite Hval. unfold serverError. congruence.
Qed.

Lemma validation_first_failure_400_witness :
  violates (request "640" "480" "gif" "0") InvalidQuality /\
  exists first before after,
    checkOrder = before ++ first :: after /\
    (forall c', In c' before -> ~ violates (request "640" "480" "gif" "0") c') /\
    violates (request "640" "480" "gif" "0") first /\
    validate (request "640" "480" "gif" "0") = Some (Json 400 (message first)) /\
    (forall toBuffer, POST (request "640" "480" "gif" "0") toBuffer = Json 400 (message first)) /\
    (forall toBuffer, POST (request "640" "480" "gif" "0") toBuffer <> serverError).
Proof.
  assert (violates (request "640" "480" "gif" "0") InvalidQuality) as Hquality.
  { simpl. lia. }
  split; [exact Hquality|].
  apply (validation_first_failure_400 (request "640" "480" "gif" "0") InvalidQuality).
  exact Hquality.
Defined.

(** C4, as the specification words it, fails. The specification's third
    check rejects a width that is not numeric and its fifth a quality that
    is not an integer from 1 to 100. The width "12px" and the quality
    "100.9" are such values, yet [parseInt] reads them as 12 and as 100:
    each request passes the five guards and is handed to the codec, with
    these numbers, and when the codec throws the answer is the generic
    500. *)
Lemma unparsed_suffix_reaches_codec :
  (isPositiveDecimal "12px" = false /\
   validate (request "12px" "480" "png" "80") = None /\
   (forall toBuffer,
      POST (request "12px" "480" "png" "80") toBuffer
        = match toBuffer (processedImage (request "12px" "480" "png" "80") samplePng) with
          | Some resizedBuffer => Binary (responseHeaders (Some "png")) resizedBuffer
          | None => serverError
          end) /\
   width (processedImage (request "12px" "480" "png" "80") samplePng) = Some 12 /\
   POST (request "12px" "480" "png" "80") failingCodec = Json 500 "Failed to process image") /\
  (isQualityDecimal "100.9" = false /\
   validate (request "640" "480" "png" "100.9") = None /\
   encoder (processedImage (request "640" "480" "png" "100.9") samplePng)
     = png (Some 100) 9 true /\
   POST (request "640" "480" "png" "100.9") failingCodec = Json 500 "Failed to process image").
Proof. repeat split. Qed.

(** The format check wins over the quality check in that request. *)
Example gif_with_bad_quality :
  validate (request "640" "480" "gif" "0") = Some (Json 400 (message InvalidFormat)).
Proof. reflexivity. Qed.

Lemma rejectedDimension_tests (v : option FormData.EntryValue) :
  rejectedDimension v ->
  let x := parseInt (FormData.toStringArg v) in not_ x || le x 0 = true.
Proof.
  unfold rejectedDimension. simpl.
  destruct (parseInt (FormData.toStringArg v)) as [z|]; simpl; [|done].
  intros Hz. destruct (Z.eqb_spec z 0); [done|]. simpl. lia.
Qed.

(** C5, as the handler has it. For a request that carries an image of an
    allowed type: when the width or the height field is missing, or
    [parseInt] reads it as NaN, as zero or as a negative number, the answer
    is 400 with the invalid-dimensions message. *)
Theorem invalid_dimensions_400 (formData : FormData.t) :
  missingImage formData = false ->
  unsupportedType formData = false ->
  rejectedDimension (FormData.get "width" formData) \/
    rejectedDimension (FormData.get "height" formData) ->
  forall toBuffer, POST formData toBuffer = Json 400 "Invalid dimensions provided".
Proof.
  intros H1 H2 Hdim toBuffer.
  assert (invalidDimensions formData = true) as H3.
  { unfold invalidDimensions, widthOf, heightOf.
    destruct Hdim as [Hw|Hh].
    - apply rejectedDimension_tests in Hw. simpl in Hw.
      apply orb_true_iff in Hw as [->| ->]; simpl; rewrite ?orb_true_r; done.
    - apply rejectedDimension_tests in Hh. simpl in Hh.
      apply orb_true_iff in Hh as [->| ->]; simpl; rewrite ?orb_true_r; done. }
  unfold POST, validate. by rewrite H1, H2, H3.
Qed.

Lemma invalid_dimensions_400_witness :
  (missingImage (request "0" "480" "png" "80") = false /\
   unsupportedType (request "0" "480" "png" "80") = false /\
   rejectedDimension (FormData.get "width" (request "0" "480" "png" "80"))) /\
  POST (request "0" "480" "png" "80") emptyCodec = Json 400 "Invalid dimensions provided".
Proof.
  assert (rejectedDimension (FormData.get "width" (request "0" "480" "png" "80"))) as Hwidth.
  { unfold rejectedDimension. simpl. lia. }
  split; [repeat split; exact Hwidth|].
  apply (invalid_dimensions_400 (request "0" "480" "png" "80")).
  - reflexivity.
  - reflexivity.
  - left. exact Hwidth.
Defined.

(** A missing field is read by [parseInt] as the string "null". *)
Lemma missing_dimension_rejected : rejectedDimension None.
Proof. exact I. Qed.

Example zero_width_rejected : rejectedDimension (Some (FormData.Str "0")).
Proof. unfold rejectedDimension. simpl. lia. Qed.

Example negative_height_rejected : rejectedDimension (Some (FormData.Str "-5")).
Proof. unfold rejectedDimension. simpl. lia. Qed.

Example letter_width_rejected : rejectedDimension (Some (FormData.Str "x")).
Proof. exact I. Qed.

Example height_minus_five :
  forall toBuffer,
    POST (request "640" "-5" "png" "80") toBuffer = Json 400 "Invalid dimensions provided".
Proof. reflexivity. Qed.

Example width_x :
  forall toBuffer,
    POST (request "x" "480" "png" "80") toBuffer = Json 400 "Invalid dimensions provided".
Proof. reflexivity. Qed.

(** C5, as the specification words it, fails: the width "12px" is not the
    decimal representation of a positive integer, yet [parseInt] reads it
    as 12, the request passes validation and is handed to the codec. *)
Lemma width_12px_accepted :
  isPositiveDecimal "12px" = false /\
  validate (request "12px" "480" "png" "80") = None /\
  widthOf (request "12px" "480" "png" "80") = Some 12 /\
  (forall toBuffer,
     POST (request "12px" "480" "png" "80") toBuffer
       <> Json 400 "Invalid dimensions provided").
Proof.
  repeat split.
  intros toBuffer. unfold POST. simpl. unfold process. simpl.
  destruct (toBuffer _); unfold serverError; congruence.
Qed.

(** A dimension problem is only reported when the image checks pass. *)
Example missing_image_reported_first :
  forall toBuffer,
    POST [("width", FormData.Str "0"); ("height", FormData.Str "480")] toBuffer
      = Json 400 "No image file provided".
Proof. reflexivity. Qed.

(** C6. A request that passes the five checks carries one of the formats
    jpeg, jpg, png, webp; the [switch] takes the arm of that format and
    never the [default] arm, so the encoder handed to the codec is not the
    fallback one. *)
Theorem validated_format_known (formData : FormData.t) :
  validate formData = None ->
  exists f,
    formatOf formData = Some f /\
    In f ALLOWED_FORMATS /\
    switchArm (formatOf formData) <> case_default /\
    forall buffer,
      encoder (processedImage formData buffer) <> encoderOf case_default (qualityOf formData).
Proof.
  unfold validate.
  destruct (missingImage formData); [done|].
  destruct (unsupportedType formData); [done|].
  destruct (invalidDimensions formData); [done|].
  destruct (invalidFormat formData) eqn:Hfmt; [done|].
  intros _. unfold invalidFormat in Hfmt. apply negb_false_iff in Hfmt.
  apply JSFacts.includes_In in Hfmt as (f & Hf & Hin).
  exists f. split; [done|]. split; [done|].
  unfold processedImage. simpl. rewrite Hf.
  unfold ALLOWED_FORMATS in Hin. simpl in Hin.
  destruct Hin as [<-|[<-|[<-|[<-|[]]]]]; simpl; split; try done; intros _; done.
Qed.

Lemma validated_format_known_witness :
  exists f,
    formatOf (request "640" "480" "webp" "95") = Some f /\
    In f ALLOWED_FORMATS /\
    switchArm (formatOf (request "640" "480" "webp" "95")) <> case_default /\
    forall buffer,
      encoder (processedImage (request "640" "480" "webp" "95") buffer)
        <> encoderOf case_default (qualityOf (request "640" "480" "webp" "95")).
Proof.
  apply (validated_format_known (request "640" "480" "webp" "95")).
  reflexivity.
Defined.

(** What the handler passes as the [background] of the resize: transparent
    black for png, opaque white for everything else. What the codec makes
    of it is outside this file. *)
Lemma background_policy (format : option string) :
  backgroundFor format =
    if strictEq format "png" then transparentBlack else opaqueWhite.
Proof. reflexivity. Qed.

Example background_png : backgroundFor (Some "png") = transparentBlack.
Proof. reflexivity. Qed.

Example background_webp : backgroundFor (Some "webp") = opaqueWhite.
Proof. reflexivity. Qed.

End RouteFacts.

(* ===================================================================== *)
(** ** Properties of the session controller *)
(* ===================================================================== *)

Module PageFacts.

Import JS Page Samples.

(** *** Staging *)

Section Staging.

Lemma forEachFile_tasks (seen : nat) (fileArray : list File.t) (hasError : bool) (s : State) :
  map taskFile (forEachFile seen fileArray hasError s).2 = accepted fileArray /\
  Forall (fun task => seenLength task = seen) (forEachFile seen fileArray hasError s).2.
Proof.
  revert hasError s. unfold accepted.
  induction fileArray as [|file rest IH]; intros hasError s; simpl; [by split|].
  destruct (validateFile file) as [msg|] eqn:Hval.
  - rewrite filter_cons_False by (rewrite Hval; done). apply IH.
  - rewrite filter_cons_True by done.
    destruct (IH hasError s) as [IH1 IH2].
    destruct (forEachFile seen rest hasError s) as [[h s'] tasks]. simpl in *.
    split; [by rewrite IH1 | by constructor].
Qed.

Lemma forEachFile_state (seen : nat) (fileArray : list File.t) (hasError : bool) (s : State) :
  let '(hasError', s', _) := forEachFile seen fileArray hasError s in
  originalImages s' = originalImages s /\
  resizedImages s' = resizedImages s /\
  isLoading s' = isLoading s /\
  resizeOptions s' = resizeOptions s /\
  hasError' = hasError || bool_decide (lastRejection fileArray <> None) /\
  error s' = match lastRejection fileArray with
             | Some msg => Some msg
             | None => error s
             end.
Proof.
  revert hasError s. unfold lastRejection.
  induction fileArray as [|file rest IH]; intros hasError s; simpl.
  { rewrite orb_false_r. done. }
  destruct (validateFile file) as [msg|] eqn:Hval; simpl.
  - specialize (IH true (setError (Some msg) s)).
    destruct (forEachFile seen rest true (setError (Some msg) s)) as [[h s'] tasks].
    destruct IH as (-> & -> & -> & -> & -> & ->). simpl.
    rewrite last_cons. change (list_omap File.t string validateFile rest) with (omap validateFile rest).
    destruct (last (omap validateFile rest)).
    all: repeat split; try done.
    all: rewrite bool_decide_eq_true_2 by done; by rewrite orb_true_r.
  - specialize (IH hasError s).
    destruct (forEachFile seen rest hasError s) as [[h s'] tasks]. done.
Qed.

Lemma completeLoads_state (loads : list (LoadTask * Loaded)) (s : State) :
  originalImages (completeLoads loads s)
    = originalImages s ++ map (fun load => newImageOf load.1 load.2) loads /\
  resizedImages (completeLoads loads s) = resizedImages s /\
  error (completeLoads loads s) = error s /\
  isLoading (completeLoads loads s) = isLoading s.
Proof.
  revert s. induction loads as [|[task img] rest IH]; intros s; simpl.
  { by rewrite app_nil_r. }
  destruct (IH (imgOnload task img s)) as (-> & -> & -> & ->).
  unfold imgOnload. destruct (Nat.eqb (seenLength task) 0); simpl;
    rewrite <- app_assoc; done.
Qed.

Lemma map_file_newImageOf (tasks : list LoadTask) (decoded : list Loaded) :
  length decoded = length tasks ->
  map ImageData.file (map (fun load => newImageOf load.1 load.2) (zip tasks decoded))
    = map taskFile tasks.
Proof.
  revert decoded. induction tasks as [|task rest IH]; intros [|img decoded]; simpl; try done.
  intros [= Hlen]. by rewrite IH.
Qed.

End Staging.

(** C3, as the controller has it. A batch that would bring the session over
    10 images is rejected whole: no load is started, nothing is staged
    whatever the browser could decode, and the error tells how many more
    images fit. Otherwise each file is judged on its own: a file over 5 MB
    or of a type outside the allow-list is left out and its message shown
    (the last such message wins); a load is started for each of the other
    files, and nothing is staged yet. A file is staged when its load
    completes: whichever loads of the batch complete, in whatever order,
    the files staged from the batch are those of the completed loads, each
    of them a file of the batch that passed the two tests, and the error
    shown stays as it was; a load that never completes stages nothing and
    shows no message. When every load completes, the files staged are all
    the files that passed. *)
Theorem batch_add_policy (fileArray : list File.t) (s : State) :
  let staged := length (originalImages s) in
  let selected := handleFileSelect fileArray s in
  (Z.of_nat staged + Z.of_nat (length fileArray) > MAX_IMAGES ->
     selected = (setError (Some (tooManyMessage staged)) s, []) /\
     forall decoded,
       stageFiles fileArray decoded s = setError (Some (tooManyMessage staged)) s /\
       originalImages (stageFiles fileArray decoded s) = originalImages s) /\
  (Z.of_nat staged + Z.of_nat (length fileArray) <= MAX_IMAGES ->
     map taskFile selected.2 = accepted fileArray /\
     originalImages selected.1 = originalImages s /\
     error selected.1 = lastRejection fileArray /\
     (forall completed : list (LoadTask * Loaded),
        (forall load, In load completed -> In load.1 selected.2) ->
        map ImageData.file (originalImages (completeLoads completed selected.1))
          = map ImageData.file (originalImages s)
              ++ map (fun load => taskFile load.1) completed /\
        (forall load, In load completed ->
           In (taskFile load.1) fileArray /\ validateFile (taskFile load.1) = None) /\
        error (completeLoads completed selected.1) = lastRejection fileArray) /\
     (forall decoded,
        length decoded = length (accepted fileArray) ->
        map ImageData.file (originalImages (stageFiles fileArray decoded s))
          = map ImageData.file (originalImages s) ++ accepted fileArray)).
Proof.
  simpl. unfold stageFiles, handleFileSelect. split.
  - intros Hover. apply Z.gtb_gt in Hover. rewrite Hover. simpl. done.
  - intros Hfit.
    destruct (Z.gtb_spec (Z.of_nat (length (originalImages s)) + Z.of_nat (length fileArray)) MAX_IMAGES)
      as [Hgt|_]; [lia|].
    pose proof (forEachFile_tasks (length (originalImages s)) fileArray false s) as [Htasks _].
    pose proof (forEachFile_state (length (originalImages s)) fileArray false s) as Hstate.
    destruct (forEachFile (length (originalImages s)) fileArray false s) as [[hasError s'] tasks].
    simpl in Htasks. destruct Hstate as (Horig & _ & _ & _ & Herr & Hmsg).
    simpl in Herr. subst hasError.
    assert (originalImages (if negb (bool_decide (lastRejection fileArray <> None))
                            then setError None s' else s') = originalImages s) as Horig'.
    { destruct (negb _); done. }
    assert (error (if negb (bool_decide (lastRejection fileArray <> None))
                   then setError None s' else s') = lastRejection fileArray) as Herror.
    { destruct (lastRejection fileArray) as [msg|] eqn:Hlast.
      - rewrite bool_decide_eq_true_2 by done. done.
      - rewrite bool_decide_eq_false_2 by (intros H; by apply H). done. }
    simpl. split; [done|]. split; [done|]. split; [done|]. split.
    + intros completed Hcompleted.
      match goal with |- context [completeLoads _ ?s0] =>
        destruct (completeLoads_state completed s0) as (-> & _ & -> & _) end.
      rewrite map_app, Horig', map_map. split; [done|]. split; [|done].
      intros load Hin.
      assert (In (taskFile load.1) (accepted fileArray)) as Hacc.
      { rewrite <- Htasks. apply in_map. by apply Hcompleted. }
      unfold accepted in Hacc. apply list_elem_of_In, list_elem_of_filter in Hacc as [Hval Hfile].
      split; [by apply list_elem_of_In | done].
    + intros decoded Hlen.
      assert (length decoded = length tasks) as Hlen'.
      { rewrite Hlen, <- Htasks. by rewrite length_map. }
      match goal with |- context [completeLoads _ ?s0] =>
        destruct (completeLoads_state (zip tasks decoded) s0) as (-> & _ & _ & _) end.
      by rewrite map_app, map_file_newImageOf, Htasks, Horig'.
Qed.

Lemma batch_add_policy_witness :
  (Z.of_nat 0 + Z.of_nat 11 > MAX_IMAGES /\
   handleFileSelect (repeat fileA 11) initialState
     = (setError (Some (tooManyMessage 0)) initialState, []) /\
   forall decoded,
     stageFiles (repeat fileA 11) decoded initialState
       = setError (Some (tooManyMessage 0)) initialState /\
     originalImages (stageFiles (repeat fileA 11) decoded initialState) = []) /\
  (Z.of_nat 0 + Z.of_nat 3 <= MAX_IMAGES /\
   map taskFile (handleFileSelect [fileA; fileBig; fileB] initialState).2 = [fileA; fileB] /\
   originalImages (handleFileSelect [fileA; fileBig; fileB] initialState).1 = [] /\
   error (handleFileSelect [fileA; fileBig; fileB] initialState).1
     = Some "File size must be less than 5MB" /\
   (forall completed : list (LoadTask * Loaded),
      (forall load, In load completed ->
         In load.1 (handleFileSelect [fileA; fileBig; fileB] initialState).2) ->
      map ImageData.file
          (originalImages
             (completeLoads completed (handleFileSelect [fileA; fileBig; fileB] initialState).1))
        = [] ++ map (fun load => taskFile load.1) completed /\
      (forall load, In load completed ->
         In (taskFile load.1) [fileA; fileBig; fileB] /\ validateFile (taskFile load.1) = None) /\
      error (completeLoads completed (handleFileSelect [fileA; fileBig; fileB] initialState).1)
        = Some "File size must be less than 5MB") /\
   (forall decoded,
      length decoded = length (accepted [fileA; fileBig; fileB]) ->
      map ImageData.file (originalImages (stageFiles [fileA; fileBig; fileB] decoded initialState))
        = [] ++ [fileA; fileB])).
Proof.
  split.
  - split; [unfold MAX_IMAGES; lia|].
    apply (proj1 (batch_add_policy (repeat fileA 11) initialState)).
    unfold MAX_IMAGES. simpl. lia.
  - split; [unfold MAX_IMAGES; lia|].
    apply (proj2 (batch_add_policy [fileA; fileBig; fileB] initialState)).
    unfold MAX_IMAGES. simpl. lia.
Defined.

(** The second file of a batch of two never finishes loading: it is not
    staged, and no message is shown. *)
Example undecoded_file_left_out :
  let '(s0, tasks) := handleFileSelect [fileA; fileB] initialState in
  exists taskA taskB,
    tasks = [taskA; taskB] /\
    map ImageData.file (originalImages (completeLoads [(taskA, loadedA)] s0)) = [fileA] /\
    error (completeLoads [(taskA, loadedA)] s0) = None.
Proof. simpl. eexists _, _. repeat split. Qed.

(** C3, as the specification words it, fails: a batch with one good file
    and one file over 5 MB is not rejected whole; the good file is staged. *)
Lemma oversized_file_does_not_reject_batch :
  validateFile fileBig = Some "File size must be less than 5MB" /\
  map ImageData.file (originalImages (stageFiles [fileA; fileBig] [loadedA] initialState))
    = [fileA] /\
  error (stageFiles [fileA; fileBig] [loadedA] initialState)
    = Some "File size must be less than 5MB".
Proof. repeat split. Qed.

(** The count check at the limit: ten staged images and one more file. *)
Example eleventh_image_message :
  tooManyMessage 10 = "Maximum 10 images allowed. You can upload 0 more images.".
Proof. reflexivity. Qed.

(** *** Seeding the settings *)

Lemma imgOnload_first_seeds (task : LoadTask) (img : Loaded) (s : State) :
  seenLength task = 0%nat ->
  ResizeOptions.width (resizeOptions (imgOnload task img s)) = ofZ (imgWidth img) /\
  ResizeOptions.height (resizeOptions (imgOnload task img s)) = ofZ (imgHeight img).
Proof. intros Hseen. unfold imgOnload. rewrite Hseen. done. Qed.

Lemma imgOnload_later_keeps (task : LoadTask) (img : Loaded) (s : State) :
  seenLength task <> 0%nat ->
  resizeOptions (imgOnload task img s) = resizeOptions s.
Proof.
  intros Hseen. unfold imgOnload.
  destruct (Nat.eqb_spec (seenLength task) 0); done.
Qed.

(** Every load started by one [handleFileSelect] carries the length that
    call saw, not the length at the time the load completes. *)
Lemma handleFileSelect_seenLength (fileArray : list File.t) (s : State) :
  Forall (fun task => seenLength task = length (originalImages s))
    (handleFileSelect fileArray s).2.
Proof.
  unfold handleFileSelect.
  destruct (_ >? _); [by constructor|].
  pose proof (forEachFile_tasks (length (originalImages s)) fileArray false s) as [_ Hseen].
  destruct (forEachFile _ fileArray false s) as [[h s'] tasks]. done.
Qed.

(** C8, at its failing input. Two files are added in one batch to an empty
    session. The first load seeds the settings with 100 x 50; the second
    load, which completes when one image is already staged, seeds them
    again with 640 x 480, because its callback still holds the length 0
    that [handleFileSelect] saw. *)
Theorem second_image_of_batch_reseeds :
  let '(s0, tasks) := handleFileSelect [fileA; fileB] initialState in
  exists taskA taskB,
    tasks = [taskA; taskB] /\
    let s1 := imgOnload taskA loadedA s0 in
    let s2 := imgOnload taskB loadedB s1 in
    length (originalImages s1) = 1%nat /\
    ResizeOptions.width (resizeOptions s1) = ofZ 100 /\
    ResizeOptions.height (resizeOptions s1) = ofZ 50 /\
    length (originalImages s2) = 2%nat /\
    ResizeOptions.width (resizeOptions s2) = ofZ 640 /\
    ResizeOptions.height (resizeOptions s2) = ofZ 480 /\
    resizeOptions s2 <> resizeOptions s1.
Proof.
  simpl. eexists _, _. split; [reflexivity|].
  repeat split. vm_compute. discriminate.
Qed.

(** The loads of a batch selected while the session was empty all seed the
    settings: after them the settings are those of the last image loaded. *)
Lemma completeLoads_all_seed (loads : list (LoadTask * Loaded)) :
  forall (s : State) (task : LoadTask) (img : Loaded),
    Forall (fun load => seenLength load.1 = 0%nat) loads ->
    last loads = Some (task, img) ->
    ResizeOptions.width (resizeOptions (completeLoads loads s)) = ofZ (imgWidth img) /\
    ResizeOptions.height (resizeOptions (completeLoads loads s)) = ofZ (imgHeight img).
Proof.
  induction loads as [|[task0 img0] rest IH]; intros s task img Hseen Hlast; [done|].
  apply Forall_cons in Hseen as [Hseen0 Hseen]. simpl in Hseen0.
  destruct rest as [|next rest'].
  - simpl in Hlast. injection Hlast as -> ->. simpl.
    by apply imgOnload_first_seeds.
  - simpl. apply (IH (imgOnload task0 img0 s) task img Hseen).
    by rewrite last_cons_cons in Hlast.
Qed.

(** The loads of a batch selected while images were staged leave the
    settings alone. *)
Lemma completeLoads_none_seed (loads : list (LoadTask * Loaded)) :
  forall (s : State),
    Forall (fun load => seenLength load.1 <> 0%nat) loads ->
    resizeOptions (completeLoads loads s) = resizeOptions s.
Proof.
  induction loads as [|[task0 img0] rest IH]; intros s Hseen; [done|].
  apply Forall_cons in Hseen as [Hseen0 Hseen]. simpl in *.
  rewrite (IH _ Hseen). by apply imgOnload_later_keeps.
Qed.

(** The format recorded for an image is the one [getExt] infers. *)
Lemma extInferred_imgOnload (task : LoadTask) (img : Loaded) (s : State) :
  extInferred s -> extInferred (imgOnload task img s).
Proof.
  intros Hinv image Hin.
  assert (In image (originalImages s ++ [newImageOf task img])) as Hin'.
  { unfold imgOnload in Hin. destruct (Nat.eqb (seenLength task) 0); exact Hin. }
  apply in_app_or in Hin' as [Hold|[<-|[]]]; [by apply Hinv | done].
Qed.

(** A file added on its own to a session that already holds an image leaves
    the settings alone. *)
Example later_batch_keeps_settings :
  let s1 := stageFiles [fileA] [loadedA] initialState in
  resizeOptions (stageFiles [fileB] [loadedB] s1) = resizeOptions s1.
Proof. reflexivity. Qed.

(** *** Editing a dimension *)

(** What an edit does to the settings, operation by operation. *)
Lemma dimension_change_effect (s : State) (firstImage : ImageData.t)
    (others : list ImageData.t) (value : double) :
  originalImages s = firstImage :: others ->
  let aspectRatio :=
    div (ofZ (ImageData.width firstImage)) (ofZ (ImageData.height firstImage)) in
  let opts := resizeOptions s in
  let afterWidth := resizeOptions (handleDimensionChange dimWidth value s) in
  let afterHeight := resizeOptions (handleDimensionChange dimHeight value s) in
  ResizeOptions.width afterWidth = value /\
  ResizeOptions.height afterHeight = value /\
  ResizeOptions.height afterWidth =
    (if ResizeOptions.maintainAspectRatio opts
     then Math_round (div value aspectRatio)
     else ResizeOptions.height opts) /\
  ResizeOptions.width afterHeight =
    (if ResizeOptions.maintainAspectRatio opts
     then Math_round (mul value aspectRatio)
     else ResizeOptions.width opts) /\
  ResizeOptions.quality afterWidth = ResizeOptions.quality opts /\
  ResizeOptions.quality afterHeight = ResizeOptions.quality opts /\
  ResizeOptions.maintainAspectRatio afterWidth = ResizeOptions.maintainAspectRatio opts /\
  ResizeOptions.maintainAspectRatio afterHeight = ResizeOptions.maintainAspectRatio opts.
Proof.
  intros Himages. simpl. unfold handleDimensionChange. rewrite Himages.
  destruct (ResizeOptions.maintainAspectRatio (resizeOptions s)) eqn:Hlock;
    simpl; rewrite ?Hlock; done.
Qed.

(** C7, as the controller has it. The first staged image is [w] x [h]
    pixels and the value typed is the whole number [v], all three below
    2^24 = 16777216 ([w] and [h] at least 1, [v] at least 0). The edited
    dimension becomes [v]. Under the lock, a new width sets the height to
    [v * h / w] rounded to the nearest integer, a tie going up, with one
    exception: when [v * h / w] lies exactly halfway between two integers
    the height may be the integer below it. A new height sets the width to
    [v * w / h] rounded in the same way, with the same exception. The
    controller gets there in double precision, [Math.round(v / (w / h))]
    and [Math.round(v * (w / h))]: the two roundings of each computation
    never move the result across a half, they can only fall short of one.
    Without the lock the other dimension is left as it was. Quality and
    lock are never touched. *)
Theorem dimension_change (s : State) (firstImage : ImageData.t)
    (others : list ImageData.t) (v : Z) :
  originalImages s = firstImage :: others ->
  let w := ImageData.width firstImage in
  let h := ImageData.height firstImage in
  0 < w < 2 ^ 24 -> 0 < h < 2 ^ 24 -> 0 <= v < 2 ^ 24 ->
  let opts := resizeOptions s in
  let afterWidth := resizeOptions (handleDimensionChange dimWidth (ofZ v) s) in
  let afterHeight := resizeOptions (handleDimensionChange dimHeight (ofZ v) s) in
  ResizeOptions.width afterWidth = ofZ v /\
  ResizeOptions.height afterHeight = ofZ v /\
  (ResizeOptions.maintainAspectRatio opts = true ->
     (ResizeOptions.height afterWidth = ofZ (roundDiv (v * h) w) \/
      (halfway (v * h) w /\
       ResizeOptions.height afterWidth = ofZ (roundDiv (v * h) w - 1))) /\
     (ResizeOptions.width afterHeight = ofZ (roundDiv (v * w) h) \/
      (halfway (v * w) h /\
       ResizeOptions.width afterHeight = ofZ (roundDiv (v * w) h - 1)))) /\
  (ResizeOptions.maintainAspectRatio opts = false ->
     ResizeOptions.height afterWidth = ResizeOptions.height opts /\
     ResizeOptions.width afterHeight = ResizeOptions.width opts) /\
  ResizeOptions.quality afterWidth = ResizeOptions.quality opts /\
  ResizeOptions.quality afterHeight = ResizeOptions.quality opts /\
  ResizeOptions.maintainAspectRatio afterWidth = ResizeOptions.maintainAspectRatio opts /\
  ResizeOptions.maintainAspectRatio afterHeight = ResizeOptions.maintainAspectRatio opts.
Proof.
  intros Himages w h Hw Hh Hv.
  destruct (dimension_change_effect s firstImage others (ofZ v) Himages)
    as (Hww & Hhh & Hhw & Hwh & Hq1 & Hq2 & Hl1 & Hl2).
  cbv zeta. split; [exact Hww|]. split; [exact Hhh|].
  split; [|split; [|done]].
  - intros Hlock. rewrite Hhw, Hwh, Hlock. fold w h. split.
    + destruct (DoubleFacts.locked_height_nearest v w h Hw Hh Hv) as (r & -> & Hnear).
      destruct (DoubleFacts.nearest_roundDiv (v * h) w r ltac:(lia) Hnear) as [->|[Htie ->]];
        [by left | by right].
    + destruct (DoubleFacts.locked_width_nearest v w h Hw Hh Hv) as (r & -> & Hnear).
      destruct (DoubleFacts.nearest_roundDiv (v * w) h r ltac:(lia) Hnear) as [->|[Htie ->]];
        [by left | by right].
  - intros Hlock. rewrite Hhw, Hwh, Hlock. done.
Qed.

Lemma dimension_change_witness :
  (originalImages (sessionWith [tallImage] true) = tallImage :: [] /\
   0 < 100 < 2 ^ 24 /\ 0 < 145 < 2 ^ 24 /\ 0 <= 7 < 2 ^ 24 /\
   ResizeOptions.maintainAspectRatio (resizeOptions (sessionWith [tallImage] true)) = true) /\
  (ResizeOptions.height
     (resizeOptions (handleDimensionChange dimWidth (ofZ 7) (sessionWith [tallImage] true)))
     = ofZ (roundDiv (7 * 145) 100) \/
   (halfway (7 * 145) 100 /\
    ResizeOptions.height
      (resizeOptions (handleDimensionChange dimWidth (ofZ 7) (sessionWith [tallImage] true)))
      = ofZ (roundDiv (7 * 145) 100 - 1))) /\
  (ResizeOptions.width
     (resizeOptions (handleDimensionChange dimHeight (ofZ 7) (sessionWith [tallImage] true)))
     = ofZ (roundDiv (7 * 100) 145) \/
   (halfway (7 * 100) 145 /\
    ResizeOptions.width
      (resizeOptions (handleDimensionChange dimHeight (ofZ 7) (sessionWith [tallImage] true)))
      = ofZ (roundDiv (7 * 100) 145 - 1))).
Proof.
  assert (0 < 100 < 2 ^ 24) as Hw by (vm_compute; split; reflexivity).
  assert (0 < 145 < 2 ^ 24) as Hh by (vm_compute; split; reflexivity).
  assert (0 <= 7 < 2 ^ 24) as Hv by (vm_compute; split; [discriminate | reflexivity]).
  split; [split; [reflexivity|]; split; [exact Hw|]; split; [exact Hh|]; split;
          [exact Hv | reflexivity] |].
  exact (proj1 (proj2 (proj2 (dimension_change (sessionWith [tallImage] true) tallImage []
                                7 eq_refl Hw Hh Hv))) eq_refl).
Defined.

(** The width 7 on the 100 x 145 image: 7 * 145 / 100 = 10.15 is not a
    double, the controller's quotient is rounded twice, and the height is
    10, the nearest integer. *)
Example locked_height_10 :
  roundDiv (7 * 145) 100 = 10 /\
  ResizeOptions.height
    (resizeOptions (handleDimensionChange dimWidth (ofZ 7) (sessionWith [tallImage] true)))
    = ofZ 10.
Proof. split; vm_compute; reflexivity. Qed.

(** The exception is met: the width 10 on the 100 x 145 image asks for
    14.5, and the height set is 14. *)
Example locked_height_at_half :
  halfway (10 * 145) 100 /\
  ResizeOptions.height
    (resizeOptions (handleDimensionChange dimWidth (ofZ 10) (sessionWith [tallImage] true)))
    = ofZ (roundDiv (10 * 145) 100 - 1).
Proof. split; [exists 14; reflexivity | vm_compute; reflexivity]. Qed.

(** C7, as the specification words it, fails. The first image is 100 x 145
    and the lock is on; the width is set to 10. The exact quotient
    10 * 145 / 100 is 14.5, which rounds to 15; the controller divides 10 by
    the double nearest to 100/145, gets a double just under 14.5, and sets
    the height to 14. *)
Lemma locked_height_off_by_one :
  roundDiv (10 * 145) 100 = 15 /\
  ResizeOptions.height
    (resizeOptions (handleDimensionChange dimWidth (ofZ 10) (sessionWith [tallImage] true)))
    = ofZ 14 /\
  ResizeOptions.height
    (resizeOptions (handleDimensionChange dimWidth (ofZ 10) (sessionWith [tallImage] true)))
    <> ofZ (roundDiv (10 * 145) 100).
Proof.
  split; [vm_compute; reflexivity|].
  split; [vm_compute; reflexivity|].
  vm_compute. discriminate.
Qed.

(** The same happens for a height edit: first image 1 x 98, height 49. The
    exact product 49 * 1 / 98 is 0.5, which rounds to 1; the controller
    gets 0. *)
Example locked_width_off_by_one :
  roundDiv (49 * 1) 98 = 1 /\
  ResizeOptions.width
    (resizeOptions
       (handleDimensionChange dimHeight (ofZ 49)
          (sessionWith
             [{| ImageData.file := fileA; ImageData.preview := "data:a";
                 ImageData.width := 1; ImageData.height := 98;
                 ImageData.id := "ida"; ImageData.ext := png |}] true)))
    = ofZ 0.
Proof. split; vm_compute; reflexivity. Qed.

(** Where the quotient is not a tie the two agree, as for a 800 x 600 image
    and the width 1000. *)
Example locked_height_750 :
  roundDiv (1000 * 600) 800 = 750 /\
  ResizeOptions.height
    (resizeOptions
       (handleDimensionChange dimWidth (ofZ 1000)
          (sessionWith
             [{| ImageData.file := fileA; ImageData.preview := "data:a";
                 ImageData.width := 800; ImageData.height := 600;
                 ImageData.id := "ida"; ImageData.ext := png |}] true)))
    = ofZ 750.
Proof. split; vm_compute; reflexivity. Qed.

(** With no image staged the handler returns at once. *)
Lemma dimension_change_empty (type : Dimension) (value : double) (s : State) :
  originalImages s = [] -> handleDimensionChange type value s = s.
Proof. intros Hempty. unfold handleDimensionChange. by rewrite Hempty. Qed.

(** *** The batch resize, run without interruption *)

Section Batch.
Variable toString : double -> string.

(** A job whose images up to [image] exclusive succeed and whose request
    for [image] fails stops there: the requests issued meanwhile are those
    of the images after the current one up to [image]. *)
Lemma awaitAll_fails (pre : list ImageData.t) :
  forall (job : Job) (urls : list string) (status : Z) (tail : list FetchOutcome)
         (s : State) (image : ImageData.t) (post : list ImageData.t),
    current job :: remaining job = pre ++ image :: post ->
    length urls = length pre ->
    awaitAll toString job (map ResponseOk urls ++ ResponseNotOk status :: tail) s
      = (failedOn image s,
         map (formDataFor toString (options job)) (List.tl (pre ++ [image])),
         None).
Proof.
  induction pre as [|p pre' IH]; intros [cur rem opts acc] urls status tail s image post Hjob Hlen;
    simpl in Hjob; injection Hjob as -> ->.
  - destruct urls; [|done]. reflexivity.
  - destruct urls as [|url urls']; [done|]. simpl in Hlen. injection Hlen as Hlen.
    destruct pre' as [|q pre''].
    + destruct urls'; [|done]. reflexivity.
    + cbn [map app awaitAll handleResize_resume remaining current options newResizedImages].
      rewrite (IH _ urls' status tail s image post) by done.
      reflexivity.
Qed.

(** As long as the outcomes are [ok], the requests go out image by image. *)
Lemma awaitAll_ok_prefix (pre : list ImageData.t) :
  forall (job : Job) (urls : list string) (tail : list FetchOutcome)
         (s : State) (image : ImageData.t) (post : list ImageData.t),
    current job :: remaining job = pre ++ image :: post ->
    length urls = length pre ->
    exists more,
      (awaitAll toString job (map ResponseOk urls ++ tail) s).1.2
        = map (formDataFor toString (options job)) (List.tl (pre ++ [image])) ++ more.
Proof.
  induction pre as [|p pre' IH]; intros [cur rem opts acc] urls tail s image post Hjob Hlen;
    simpl in Hjob; injection Hjob as -> ->.
  - destruct urls; [|done]. simpl. eauto.
  - destruct urls as [|url urls']; [done|]. simpl in Hlen. injection Hlen as Hlen.
    destruct pre' as [|q pre''].
    + destruct urls'; [|done].
      cbn [map app awaitAll handleResize_resume remaining current options newResizedImages].
      destruct (awaitAll toString _ tail s) as [[s' sent] waiting]. simpl. eauto.
    + cbn [map app awaitAll handleResize_resume remaining current options newResizedImages].
      match goal with |- context [awaitAll toString ?j (map ResponseOk urls' ++ tail) s] =>
        destruct (IH j urls' tail s image post) as [more Hmore]; [done | done |];
        destruct (awaitAll toString j (map ResponseOk urls' ++ tail) s) as [[s' sent] waiting]
      end.
      simpl in *. subst sent. eauto.
Qed.

(** C1, as the controller has it. When the requests of the images before
    the k-th succeed and the request of the k-th image comes back not ok,
    the batch stops: the cache is left exactly as it was before the batch
    (the results obtained for images 1..k-1 are dropped with the local
    accumulator), the error names the failing file, loading is off, and the
    requests issued are those of images 1..k and no other. *)
Theorem failed_batch_keeps_cache (s : State) (pre : list ImageData.t)
    (image : ImageData.t) (post : list ImageData.t)
    (urls : list string) (status : Z) (tail : list FetchOutcome) :
  originalImages s = pre ++ image :: post ->
  length urls = length pre ->
  let '(s', sent, waiting) :=
    handleResize toString (map ResponseOk urls ++ ResponseNotOk status :: tail) s in
  resizedImages s' = resizedImages s /\
  originalImages s' = originalImages s /\
  error s' = Some ("Failed to resize image: " +:+ File.name (ImageData.file image)) /\
  isLoading s' = false /\
  sent = map (formDataFor toString (resizeOptions s)) (pre ++ [image]) /\
  waiting = None.
Proof.
  intros Himages Hlen. unfold handleResize, handleResize_call.
  destruct (originalImages s) as [|first rest] eqn:Horig.
  { destruct pre; discriminate. }
  rewrite (awaitAll_fails pre _ urls status tail _ image post) by done.
  simpl. repeat split; try done.
  destruct pre as [|p pre']; simpl in *; congruence.
Qed.

(** C10, as the controller has it. An image staged from a file whose name's
    last dot-separated piece, lower-cased, is none of jpeg, jpg, png (for a
    name without a dot that piece is the whole name) is recorded with the
    format webp, and when a batch resize reaches it the request sent for it
    carries that file and format=webp. *)
Theorem other_names_sent_as_webp (s : State) (pre : list ImageData.t)
    (task : LoadTask) (img : Loaded) (post : list ImageData.t)
    (urls : list string) (tail : list FetchOutcome) :
  extOf (taskFile task) <> Some "jpeg" ->
  extOf (taskFile task) <> Some "jpg" ->
  extOf (taskFile task) <> Some "png" ->
  originalImages s = pre ++ newImageOf task img :: post ->
  length urls = length pre ->
  ImageData.ext (newImageOf task img) = webp /\
  exists request,
    (handleResize toString (map ResponseOk urls ++ tail) s).1.2 !! length pre
      = Some request /\
    FormData.get "image" request = Some (FormData.Blob (taskFile task)) /\
    FormData.get "format" request = Some (FormData.Str "webp").
Proof.
  intros Hjpeg Hjpg Hpng Himages Hlen.
  assert (getExt (taskFile task) = webp) as Hext.
  { unfold getExt. rewrite !bool_decide_eq_false_2; done. }
  split; [done|].
  exists (formDataFor toString (resizeOptions s) (newImageOf task img)).
  split; [|by (simpl; rewrite Hext)].
  unfold handleResize, handleResize_call.
  destruct (originalImages s) as [|first rest] eqn:Horig.
  { destruct pre; discriminate. }
  match goal with |- context [awaitAll toString ?j _ ?s0] =>
    destruct (awaitAll_ok_prefix pre j urls tail s0 (newImageOf task img) post) as [more Hmore];
      [done | done |];
    destruct (awaitAll toString j (map ResponseOk urls ++ tail) s0) as [[s' sent] waiting]
  end.
  simpl in Hmore. subst sent. cbn [fst snd options].
  assert (formDataFor toString (resizeOptions s) first
            :: map (formDataFor toString (resizeOptions s)) (List.tl (pre ++ [newImageOf task img])) ++ more
          = map (formDataFor toString (resizeOptions s)) pre
              ++ formDataFor toString (resizeOptions s) (newImageOf task img) :: more) as ->.
  { destruct pre as [|p pre']; simpl in *.
    - congruence.
    - injection Himages as -> _. by rewrite map_app, <- app_assoc. }
  rewrite lookup_app_r by (rewrite length_map; lia).
  rewrite length_map, Nat.sub_diag. done.
Qed.

End Batch.

Lemma failed_batch_keeps_cache_witness :
  (originalImages threeImages = [imageA] ++ imageB :: [imageC] /\
   length ["blob:1"] = length [imageA]) /\
  let '(s', sent, waiting) := handleResize integralToString secondFails threeImages in
  resizedImages s' = resizedImages threeImages /\
  originalImages s' = originalImages threeImages /\
  error s' = Some ("Failed to resize image: " +:+ File.name (ImageData.file imageB)) /\
  isLoading s' = false /\
  sent = map (formDataFor integralToString (resizeOptions threeImages)) ([imageA] ++ [imageB]) /\
  waiting = None.
Proof.
  split; [split; reflexivity|].
  apply (failed_batch_keeps_cache integralToString threeImages [imageA] imageB [imageC]
           ["blob:1"] 500 [ResponseOk "blob:3"]); reflexivity.
Defined.

(** C1, as the specification words it, fails. Of three images the second
    fails: the cache does not hold the first image's result, it is empty as
    before the batch. The error names b.png and two requests went out. *)
Lemma failed_batch_caches_nothing :
  let '(s', sent, waiting) := handleResize integralToString secondFails threeImages in
  resizedImages s' !! ImageData.id imageA = None /\
  size (resizedImages s') = 0%nat /\
  error s' = Some "Failed to resize image: b.png" /\
  length sent = 2%nat.
Proof. vm_compute. repeat split. Qed.

(** A request that is rejected outright surfaces the rejection's own
    message, which does not name the file. *)
Example rejected_request_message :
  let '(s', sent, waiting) :=
    handleResize integralToString
      [ResponseOk "blob:1"; Rejected (Some "Failed to fetch")] threeImages in
  error s' = Some "Failed to fetch" /\ size (resizedImages s') = 0%nat /\ length sent = 2%nat.
Proof. vm_compute. repeat split. Qed.

(** When every request succeeds the cache holds one result per image. *)
Example successful_batch_caches_all :
  let '(s', sent, waiting) :=
    handleResize integralToString
      [ResponseOk "blob:1"; ResponseOk "blob:2"; ResponseOk "blob:3"] threeImages in
  resizedImages s' !! "ida" = Some "blob:1" /\
  resizedImages s' !! "idb" = Some "blob:2" /\
  resizedImages s' !! "idc" = Some "blob:3" /\
  size (resizedImages s') = 3%nat /\
  waiting = None.
Proof. vm_compute. repeat split. Qed.

Lemma other_names_sent_as_webp_witness :
  (extOf fileGif <> Some "jpeg" /\ extOf fileGif <> Some "jpg" /\ extOf fileGif <> Some "png") /\
  ImageData.ext (newImageOf {| taskFile := fileGif; seenLength := 1 |} loadedB) = webp /\
  exists request,
    (handleResize integralToString (map ResponseOk ["blob:1"] ++ [])
       (sessionWith [imageA; newImageOf {| taskFile := fileGif; seenLength := 1 |} loadedB] true)).1.2
      !! length [imageA] = Some request /\
    FormData.get "image" request = Some (FormData.Blob fileGif) /\
    FormData.get "format" request = Some (FormData.Str "webp").
Proof.
  split; [repeat split; vm_compute; discriminate|].
  apply (other_names_sent_as_webp integralToString
           (sessionWith [imageA; newImageOf {| taskFile := fileGif; seenLength := 1 |} loadedB] true)
           [imageA] {| taskFile := fileGif; seenLength := 1 |} loadedB [] ["blob:1"] []).
  - vm_compute. discriminate.
  - vm_compute. discriminate.
  - vm_compute. discriminate.
  - reflexivity.
  - reflexivity.
Defined.

(** A name with a dot: the piece [getExt] looks at is the extension. *)
Lemma extOf_extension (file : File.t) (e : string) :
  extension (File.name file) = Some e -> extOf file = Some (toLowerCase e).
Proof.
  unfold extension, extOf, pop.
  destruct (split "." (File.name file)) as [|p0 [|p1 rest]]; [done | done |].
  intros ->. done.
Qed.

(** A name without a dot: [getExt] looks at the whole name. *)
Lemma extOf_no_dot (file : File.t) :
  (forall c, In c (list_ascii_of_string (File.name file)) -> c <> "."%char) ->
  extension (File.name file) = None /\
  extOf file = Some (toLowerCase (File.name file)).
Proof.
  intros Hno. unfold extension, extOf, pop.
  rewrite (JSFacts.split_no_separator _ _ Hno). done.
Qed.

(** C10, as the specification words it, fails. The file named "png" has no
    extension at all, yet it is recorded as png, not webp, and format=png
    is what a batch resize sends for it. *)
Lemma dotless_png_is_png :
  extension (File.name fileNamedPng) = None /\
  getExt fileNamedPng = png /\
  let image := newImageOf {| taskFile := fileNamedPng; seenLength := 0 |} loadedA in
  ImageData.ext image = png /\
  FormData.get "format" (formDataFor integralToString (resizeOptions initialState) image)
    = Some (FormData.Str "png").
Proof. vm_compute. repeat split. Qed.

Example gif_is_webp : getExt fileGif = webp.
Proof. reflexivity. Qed.

Example no_extension_is_webp :
  getExt {| File.name := "holiday"; File.type := "image/jpeg"; File.size := 1 |} = webp.
Proof. reflexivity. Qed.

Example upper_case_jpg :
  getExt {| File.name := "IMG_1.JPG"; File.type := "image/jpeg"; File.size := 1 |} = jpg.
Proof. reflexivity. Qed.

(** *** The cache and the staged images *)

Section Cache.
Variable toString : double -> string.

Lemma cache_initial : cacheWithinStaged initialState.
Proof. intros key [url Hurl]. simpl in Hurl. by rewrite lookup_empty in Hurl. Qed.

(** Adding images or changing anything but the two collections keeps the
    containment. *)
Lemma cache_grow (s s' : State) :
  resizedImages s' = resizedImages s ->
  (forall image, In image (originalImages s) -> In image (originalImages s')) ->
  cacheWithinStaged s -> cacheWithinStaged s'.
Proof.
  intros Hcache Himages Hinv key Hkey. rewrite Hcache in Hkey.
  destruct (Hinv key Hkey) as (image & Hin & Hid). eauto.
Qed.

Lemma cache_imgOnload (task : LoadTask) (img : Loaded) (s : State) :
  cacheWithinStaged s -> cacheWithinStaged (imgOnload task img s).
Proof.
  apply cache_grow; unfold imgOnload; destruct (Nat.eqb (seenLength task) 0); simpl;
    try done; intros image Hin; apply in_or_app; by left.
Qed.

Lemma cache_stageFiles (fileArray : list File.t) (decoded : list Loaded) (s : State) :
  cacheWithinStaged s -> cacheWithinStaged (stageFiles fileArray decoded s).
Proof.
  unfold stageFiles, handleFileSelect.
  destruct (_ >? _); simpl.
  { by apply cache_grow. }
  pose proof (forEachFile_state (length (originalImages s)) fileArray false s) as Hstate.
  destruct (forEachFile _ fileArray false s) as [[h s'] tasks].
  destruct Hstate as (Horig & Hcache & _).
  match goal with |- _ -> cacheWithinStaged (completeLoads ?loads ?s0) =>
    destruct (completeLoads_state loads s0) as (Horig' & Hcache' & _);
    apply cache_grow;
      [ rewrite Hcache'; destruct h; simpl; done
      | intros image Hin; rewrite Horig'; apply in_or_app; left;
        destruct h; simpl; by rewrite Horig ]
  end.
Qed.

Lemma cache_handleDimensionChange (type : Dimension) (value : double) (s : State) :
  cacheWithinStaged s -> cacheWithinStaged (handleDimensionChange type value s).
Proof.
  apply cache_grow; unfold handleDimensionChange;
    destruct (originalImages s) eqn:Horig; try done;
    destruct (ResizeOptions.maintainAspectRatio _), type; simpl; by rewrite ?Horig.
Qed.

Lemma cache_removeImage (imageId : string) (s : State) :
  cacheWithinStaged s -> cacheWithinStaged (removeImage imageId s).
Proof.
  intros Hinv key [url Hurl]. unfold removeImage in *. simpl in *.
  destruct (decide (imageId = key)) as [->|Hne].
  { by rewrite lookup_delete_eq in Hurl. }
  rewrite lookup_delete_ne in Hurl by done.
  destruct (Hinv key (ex_intro _ url Hurl)) as (image & Hin & Hid).
  exists image. split; [|done].
  apply list_elem_of_In, list_elem_of_filter. split; [congruence|].
  by apply list_elem_of_In.
Qed.

Lemma cache_clearAll (s : State) : cacheWithinStaged (clearAll s).
Proof. intros key [url Hurl]. simpl in Hurl. by rewrite lookup_empty in Hurl. Qed.

Lemma cache_resume (job : Job) (outcome : FetchOutcome) (s : State) :
  cacheWithinStaged s -> jobWithin job s ->
  cacheWithinStaged (handleResize_resume toString job outcome s).1 /\
  originalImages (handleResize_resume toString job outcome s).1 = originalImages s /\
  match (handleResize_resume toString job outcome s).2 with
  | Some (job', _) => jobWithin job' s
  | None => True
  end.
Proof.
  intros Hinv (Hacc & Hcur & Hrem).
  assert (forall url key,
            is_Some (<[ImageData.id (current job) := url]> (newResizedImages job) !! key) ->
            exists image, In image (originalImages s) /\ ImageData.id image = key) as Hacc'.
  { intros url key Hkey.
    destruct (decide (ImageData.id (current job) = key)) as [<-|Hne]; [eauto|].
    rewrite lookup_insert_ne in Hkey by done. auto. }
  destruct outcome as [url|status|message]; simpl; [|done|done].
  destruct (remaining job) as [|next rest] eqn:Hremaining; simpl.
  - split; [|done]. intros key Hkey. simpl in Hkey. eauto.
  - split; [done|]. split; [done|].
    split; [eauto|]. simpl. split.
    + apply Hrem. by left.
    + intros image Hin. apply Hrem. by right.
Qed.

Lemma cache_awaitAll (outcomes : list FetchOutcome) :
  forall (job : Job) (s : State),
    cacheWithinStaged s -> jobWithin job s ->
    cacheWithinStaged (awaitAll toString job outcomes s).1.1.
Proof.
  induction outcomes as [|outcome rest IH]; intros job s Hinv Hjob; simpl; [done|].
  destruct (cache_resume job outcome s Hinv Hjob) as (Hinv' & Horig & Hnext).
  destruct (handleResize_resume toString job outcome s) as [s' [[job' request]|]];
    simpl in *; [|done].
  specialize (IH job' s' Hinv').
  destruct (awaitAll toString job' rest s') as [[s'' sent] waiting]. simpl in *.
  apply IH. destruct Hnext as (Hacc & Hcur & Hrem).
  unfold jobWithin. rewrite Horig. done.
Qed.

(** A batch resize that nothing interrupts keeps the containment. *)
Lemma cache_handleResize (outcomes : list FetchOutcome) (s : State) :
  cacheWithinStaged s -> cacheWithinStaged (handleResize toString outcomes s).1.1.
Proof.
  intros Hinv. unfold handleResize, handleResize_call.
  destruct (originalImages s) as [|first rest] eqn:Horig; [done|].
  match goal with |- context [awaitAll toString ?j outcomes ?s0] =>
    pose proof (cache_awaitAll outcomes j s0) as Hrun;
    destruct (awaitAll toString j outcomes s0) as [[s' sent] waiting]
  end.
  simpl in *. apply Hrun.
  - by apply (cache_grow s).
  - unfold jobWithin. simpl. rewrite Horig. split; [|split].
    + intros key [url Hurl]. by rewrite lookup_empty in Hurl.
    + by left.
    + intros image Hin. by right.
Qed.

End Cache.

(** C9, at its failing input. One image is staged and a batch resize is
    started. While its request is in flight the image is removed, which
    empties both collections. Then the response arrives: the batch, still
    holding the image it was started with, stores a result under the removed
    image's identifier. The cache now has a key that no staged image
    carries. *)
Theorem removal_during_batch_leaves_orphan :
  let s0 := stageFiles [fileA] [loadedA] initialState in
  cacheWithinStaged s0 /\
  exists s1 job request,
    handleResize_call integralToString s0 = (s1, Some (job, request)) /\
    let s2 := removeImage "ida" s1 in
    let s3 := (handleResize_resume integralToString job (ResponseOk "blob:1") s2).1 in
    cacheWithinStaged s2 /\
    originalImages s3 = [] /\
    resizedImages s3 !! "ida" = Some "blob:1" /\
    ~ cacheWithinStaged s3.
Proof.
  split.
  { apply cache_stageFiles, cache_initial. }
  eexists _, _, _. split; [reflexivity|].
  split; [|split; [reflexivity|split; [reflexivity|]]].
  - apply cache_removeImage.
    apply (cache_grow (stageFiles [fileA] [loadedA] initialState)); try done.
    apply cache_stageFiles, cache_initial.
  - intros Hinv. destruct (Hinv "ida") as (image & Hin & _).
    + exists "blob:1". reflexivity.
    + destruct Hin.
Qed.

(** The same with [clearAll] in place of the removal. *)
Example clear_during_batch_leaves_orphan :
  let s0 := stageFiles [fileA] [loadedA] initialState in
  exists s1 job request,
    handleResize_call integralToString s0 = (s1, Some (job, request)) /\
    let s3 := (handleResize_resume integralToString job (ResponseOk "blob:1") (clearAll s1)).1 in
    originalImages s3 = [] /\ resizedImages s3 !! "ida" = Some "blob:1".
Proof. eexists _, _, _. split; [reflexivity|]. split; reflexivity. Qed.

End PageFacts.

(* ===================================================================== *)
(** ** Decimal text and [parseInt] *)
(* ===================================================================== *)

Module WireFacts.

Import JS.

Lemma parseDigits_uint_acc (u : Decimal.uint) :
  forall a : positive,
    parseDigits 10 (DecimalString.NilEmpty.string_of_uint u) (Some (Z.pos a))
      = Some (Z.pos (Pos.of_uint_acc u a)).
Proof.
  induction u; intros a; simpl; try done;
    rewrite <- IHu; do 2 f_equal; lia.
Qed.

Lemma parseDigits_uint_zero (u : Decimal.uint) :
  parseDigits 10 (DecimalString.NilEmpty.string_of_uint u) (Some 0)
    = Some (Z.of_N (Pos.of_uint u)).
Proof.
  induction u; simpl; try done.
  all: match goal with |- _ = Some (Z.pos (Pos.of_uint_acc _ ?a)) =>
         rewrite <- (parseDigits_uint_acc u a); do 2 f_equal; lia end.
Qed.

Lemma parseDigits_uint (u : Decimal.uint) :
  u <> Decimal.Nil ->
  parseDigits 10 (DecimalString.NilEmpty.string_of_uint u) None
    = Some (Z.of_N (Pos.of_uint u)).
Proof.
  destruct u; intros Hnil; simpl; try done.
  - apply parseDigits_uint_zero.
  - apply (parseDigits_uint_acc u 1).
  - apply (parseDigits_uint_acc u 2).
  - apply (parseDigits_uint_acc u 3).
  - apply (parseDigits_uint_acc u 4).
  - apply (parseDigits_uint_acc u 5).
  - apply (parseDigits_uint_acc u 6).
  - apply (parseDigits_uint_acc u 7).
  - apply (parseDigits_uint_acc u 8).
  - apply (parseDigits_uint_acc u 9).
Qed.

(** Text made of decimal digits has no white space, sign or hexadecimal
    prefix to strip. *)
Lemma digits_unstripped (u : Decimal.uint) :
  let text := DecimalString.NilEmpty.string_of_uint u in
  trimStart text = text /\ stripSign text = (1, text) /\ stripHexPrefix text = (10, text).
Proof. destruct u as [|u|u|u|u|u|u|u|u|u|u]; try done; destruct u; done. Qed.

Lemma parseInt_uint (u : Decimal.uint) :
  u <> Decimal.Nil ->
  parseInt (DecimalString.NilEmpty.string_of_uint u) = Some (Z.of_N (Pos.of_uint u)) /\
  parseInt (String "-" (DecimalString.NilEmpty.string_of_uint u))
    = Some (- Z.of_N (Pos.of_uint u)).
Proof.
  intros Hnil. destruct (digits_unstripped u) as (Htrim & Hsign & Hhex).
  unfold parseInt. split.
  - rewrite Htrim, Hsign, Hhex, parseDigits_uint by done. f_equal. lia.
  - change (trimStart (String "-" (DecimalString.NilEmpty.string_of_uint u)))
      with (String "-" (DecimalString.NilEmpty.string_of_uint u)).
    change (stripSign (String "-" (DecimalString.NilEmpty.string_of_uint u)))
      with (-1, DecimalString.NilEmpty.string_of_uint u).
    cbv beta iota. rewrite Hhex, parseDigits_uint by done. f_equal; lia.
Qed.

Lemma to_uint_not_Nil (p : positive) : Pos.to_uint p <> Decimal.Nil.
Proof.
  intros Hnil. pose proof (DecimalPos.Unsigned.of_to p) as Hof.
  rewrite Hnil in Hof. discriminate.
Qed.

(** The digits of an integer, read by the model's [parseInt], which keeps
    the exact integer where the engine rounds it to a double. *)
Lemma parseInt_digitsOfZ_core (z : Z) : parseInt (digitsOfZ z) = Some z.
Proof.
  unfold digitsOfZ. destruct z as [|p|p]; [done| |]; simpl.
  - pose proof (to_uint_not_Nil p) as Hnil.
    replace (DecimalString.NilZero.string_of_uint (Pos.to_uint p))
      with (DecimalString.NilEmpty.string_of_uint (Pos.to_uint p))
      by (destruct (Pos.to_uint p); done).
    rewrite (proj1 (parseInt_uint _ Hnil)), DecimalPos.Unsigned.of_to. done.
  - pose proof (to_uint_not_Nil p) as Hnil.
    replace (DecimalString.NilZero.string_of_uint (Pos.to_uint p))
      with (DecimalString.NilEmpty.string_of_uint (Pos.to_uint p))
      by (destruct (Pos.to_uint p); done).
    rewrite (proj2 (parseInt_uint _ Hnil)), DecimalPos.Unsigned.of_to. done.
Qed.

End WireFacts.

(* ===================================================================== *)
(** ** More on the resize endpoint *)
(* ===================================================================== *)

Module RouteMore.

Import JS Route Samples.
Import Downloads (mimeOf).

Lemma not_le_false (x : number) :
  not_ x || le x 0 = false <-> exists z, x = Some z /\ 0 < z.
Proof.
  destruct x as [z|]; simpl.
  - rewrite orb_false_iff, Z.eqb_neq, Z.leb_gt. split.
    + intros [_ Hpos]. eauto.
    + intros (z' & [= <-] & Hpos). lia.
  - split; [done|]. intros (z & Hz & _). discriminate.
Qed.

Lemma dimensions_ok (formData : FormData.t) :
  invalidDimensions formData = false <->
  (exists w, widthOf formData = Some w /\ 0 < w) /\
  (exists h, heightOf formData = Some h /\ 0 < h).
Proof.
  rewrite <- !not_le_false. unfold invalidDimensions.
  destruct (not_ (widthOf formData)), (not_ (heightOf formData)),
    (le (widthOf formData) 0), (le (heightOf formData) 0); simpl; intuition congruence.
Qed.

Lemma quality_ok (formData : FormData.t) :
  invalidQuality formData = false <->
  exists q, qualityOf formData = Some q /\ 1 <= q <= 100.
Proof.
  unfold invalidQuality. destruct (qualityOf formData) as [q|]; simpl.
  - rewrite !orb_false_iff, Z.eqb_neq, !Z.ltb_ge. split.
    + intros ((_ & Hlow) & Hhigh). exists q. split; [done | lia].
    + intros (q' & [= <-] & Hrange). lia.
  - split; [done|]. intros (q & Hq & _). discriminate.
Qed.

Lemma image_ok (formData : FormData.t) :
  missingImage formData = false /\ unsupportedType formData = false <->
  exists f, FormData.get "image" formData = Some (FormData.Blob f) /\
            In (File.type f) ALLOWED_TYPES.
Proof.
  unfold missingImage, unsupportedType, imageFile.
  rewrite !negb_false_iff, JSFacts.includes_In. split.
  - intros (_ & type & Htype & Hin).
    destruct (FormData.get "image" formData) as [[text|f]|]; try discriminate.
    injection Htype as <-. eauto.
  - intros (f & -> & Hin). simpl. eauto.
Qed.

Lemma format_ok (formData : FormData.t) :
  invalidFormat formData = false <->
  exists fmt, FormData.get "format" formData = Some (FormData.Str fmt) /\
              In fmt ALLOWED_FORMATS.
Proof.
  unfold invalidFormat, formatOf. rewrite negb_false_iff, JSFacts.includes_In. split.
  - intros (fmt & Hfmt & Hin).
    destruct (FormData.get "format" formData) as [[text|f]|]; try discriminate.
    injection Hfmt as <-. eauto.
  - intros (fmt & -> & Hin). simpl. eauto.
Qed.

Lemma validate_None (formData : FormData.t) :
  validate formData = None <->
  (missingImage formData = false /\ unsupportedType formData = false) /\
  invalidDimensions formData = false /\
  invalidFormat formData = false /\
  invalidQuality formData = false.
Proof.
  unfold validate.
  destruct (missingImage formData), (unsupportedType formData),
    (invalidDimensions formData), (invalidFormat formData), (invalidQuality formData);
    intuition congruence.
Qed.

Lemma validate_accepts_iff_core (formData : FormData.t) :
  validate formData = None <->
  (exists f, FormData.get "image" formData = Some (FormData.Blob f) /\
             In (File.type f) ALLOWED_TYPES) /\
  (exists w, widthOf formData = Some w /\ 0 < w) /\
  (exists h, heightOf formData = Some h /\ 0 < h) /\
  (exists fmt, FormData.get "format" formData = Some (FormData.Str fmt) /\
               In fmt ALLOWED_FORMATS) /\
  (exists q, qualityOf formData = Some q /\ 1 <= q <= 100).
Proof.
  rewrite validate_None, image_ok, dimensions_ok, format_ok, quality_ok. tauto.
Qed.

(** X2. The endpoint lets a request through to the codec exactly when the
    image entry is a file of an allowed type, [parseInt] reads width and
    height as positive numbers, the format entry is one of the four format
    strings, and [parseInt] reads the quality as a number from 1 to 100. *)
Theorem validate_accepts_iff (formData : FormData.t) :
  validate formData = None <->
  (exists f, FormData.get "image" formData = Some (FormData.Blob f) /\
             In (File.type f) ALLOWED_TYPES) /\
  (exists w, widthOf formData = Some w /\ 0 < w) /\
  (exists h, heightOf formData = Some h /\ 0 < h) /\
  (exists fmt, FormData.get "format" formData = Some (FormData.Str fmt) /\
               In fmt ALLOWED_FORMATS) /\
  (exists q, qualityOf formData = Some q /\ 1 <= q <= 100).
Proof. exact (validate_accepts_iff_core formData). Qed.

(** X3. For a request that passed the first four checks, a quality that is
    missing or that [parseInt] reads as NaN, as less than 1 or as more than
    100 is answered with 400 and the invalid-quality message; the bounds 1
    and 100 themselves are accepted. *)
Theorem invalid_quality_400 (formData : FormData.t) (toBuffer : Pipeline -> option (list Byte.byte)) :
  missingImage formData = false ->
  unsupportedType formData = false ->
  invalidDimensions formData = false ->
  invalidFormat formData = false ->
  (POST formData toBuffer = Json 400 "Invalid quality value" <->
   match qualityOf formData with
   | None => True
   | Some q => q < 1 \/ 100 < q
   end).
Proof.
  intros H1 H2 H3 H4. unfold POST, validate. rewrite H1, H2, H3, H4.
  destruct (invalidQuality formData) eqn:H5.
  - split; [|done]. intros _.
    destruct (qualityOf formData) as [q|] eqn:Hq; [|done].
    destruct (decide (1 <= q <= 100)) as [Hrange|Hout]; [|lia].
    assert (invalidQuality formData = false) as Hok by (apply quality_ok; eauto).
    congruence.
  - apply quality_ok in H5 as (q & -> & Hrange). split; [|lia].
    unfold process. destruct (arrayBuffer formData); [|done].
    destruct (toBuffer _); done.
Qed.

Lemma invalid_quality_400_witness :
  (missingImage (request "640" "480" "png" "101") = false /\
   unsupportedType (request "640" "480" "png" "101") = false /\
   invalidDimensions (request "640" "480" "png" "101") = false /\
   invalidFormat (request "640" "480" "png" "101") = false) /\
  (POST (request "640" "480" "png" "101") emptyCodec = Json 400 "Invalid quality value" <->
   match qualityOf (request "640" "480" "png" "101") with
   | None => True
   | Some q => q < 1 \/ 100 < q
   end).
Proof.
  split; [repeat split|].
  apply (invalid_quality_400 (request "640" "480" "png" "101") emptyCodec); reflexivity.
Defined.

Example quality_bounds :
  validate (request "640" "480" "png" "1") = None /\
  validate (request "640" "480" "png" "100") = None /\
  validate (request "640" "480" "png" "0") = Some (Json 400 "Invalid quality value") /\
  validate (request "640" "480" "png" "101") = Some (Json 400 "Invalid quality value") /\
  validate (request "640" "480" "png" "abc") = Some (Json 400 "Invalid quality value").
Proof. repeat split. Qed.

Lemma accepted_response_core (formData : FormData.t)
    (toBuffer : Pipeline -> option (list Byte.byte)) :
  validate formData = None ->
  exists f fmt mime,
    FormData.get "image" formData = Some (FormData.Blob f) /\
    formatOf formData = Some fmt /\
    mimeOf fmt mime /\
    POST formData toBuffer =
      match toBuffer (processedImage formData f) with
      | Some body =>
          Binary
            [ ("Content-Type", mime);
              ("Content-Disposition",
                "attachment; filename=" +:+ dquote +:+ "resized-image." +:+ fmt +:+ dquote);
              ("Cache-Control", "no-store, no-cache, must-revalidate, proxy-revalidate");
              ("Pragma", "no-cache");
              ("Expires", "0") ]
            body
      | None => Json 500 "Failed to process image"
      end.
Proof.
  intros Hval. pose proof Hval as Hacc.
  apply validate_accepts_iff_core in Hacc as ((f & Himage & _) & _ & _ & (fmt & Hfmt & Hin) & _).
  assert (exists mime, mimeOf fmt mime /\ mimeTypes (Some fmt) = Some mime) as (mime & Hmime & Hlookup).
  { unfold ALLOWED_FORMATS in Hin. simpl in Hin. unfold mimeOf.
    destruct Hin as [<-|[<-|[<-|[<-|[]]]]]; eexists; (split; [|reflexivity]); tauto. }
  exists f, fmt, mime. repeat split; try done.
  { unfold formatOf. by rewrite Hfmt. }
  unfold POST, process, arrayBuffer, imageFile. rewrite Hval, Himage.
  destruct (toBuffer _); [|done].
  unfold responseHeaders, formatOf. rewrite Hfmt. simpl FormData.asString.
  rewrite Hlookup. done.
Qed.

(** X4. A request that passed validation is answered from the codec alone:
    when the codec returns bytes the response carries exactly those bytes,
    the MIME type of the requested format, the attachment name
    resized-image.<format> and the headers that forbid caching; when the
    codec throws, the response is the generic 500. *)
Theorem accepted_response (formData : FormData.t)
    (toBuffer : Pipeline -> option (list Byte.byte)) :
  validate formData = None ->
  exists f fmt mime,
    FormData.get "image" formData = Some (FormData.Blob f) /\
    formatOf formData = Some fmt /\
    mimeOf fmt mime /\
    POST formData toBuffer =
      match toBuffer (processedImage formData f) with
      | Some body =>
          Binary
            [ ("Content-Type", mime);
              ("Content-Disposition",
                "attachment; filename=" +:+ dquote +:+ "resized-image." +:+ fmt +:+ dquote);
              ("Cache-Control", "no-store, no-cache, must-revalidate, proxy-revalidate");
              ("Pragma", "no-cache");
              ("Expires", "0") ]
            body
      | None => Json 500 "Failed to process image"
      end.
Proof. exact (accepted_response_core formData toBuffer). Qed.

Lemma accepted_response_witness :
  validate (request "640" "480" "jpg" "80") = None /\
  exists f fmt mime,
    FormData.get "image" (request "640" "480" "jpg" "80") = Some (FormData.Blob f) /\
    formatOf (request "640" "480" "jpg" "80") = Some fmt /\
    mimeOf fmt mime /\
    POST (request "640" "480" "jpg" "80") emptyCodec =
      match emptyCodec (processedImage (request "640" "480" "jpg" "80") f) with
      | Some body =>
          Binary
            [ ("Content-Type", mime);
              ("Content-Disposition",
                "attachment; filename=" +:+ dquote +:+ "resized-image." +:+ fmt +:+ dquote);
              ("Cache-Control", "no-store, no-cache, must-revalidate, proxy-revalidate");
              ("Pragma", "no-cache");
              ("Expires", "0") ]
            body
      | None => Json 500 "Failed to process image"
      end.
Proof.
  split; [reflexivity|].
  apply (accepted_response (request "640" "480" "jpg" "80") emptyCodec). reflexivity.
Defined.

(** X5. What the codec is handed after validation: positive target
    dimensions, the fill strategy, a quality from 1 to 100, and for each
    format its own encoder: progressive mozjpeg for jpeg and jpg, effort 6
    for webp with the near-lossless path exactly from quality 90 up, and
    compression level 9 for png. Only png gets the transparent background. *)
Theorem validated_pipeline (formData : FormData.t) (buffer : File.t) :
  validate formData = None ->
  exists w h q fmt,
    processedImage formData buffer =
      {| imageBuffer := buffer;
         width := Some w;
         height := Some h;
         options :=
           {| fit := fill;
              background := if String.eqb fmt "png" then transparentBlack else opaqueWhite |};
         encoder :=
           if String.eqb fmt "png" then png (Some q) 9 true
           else if String.eqb fmt "webp" then webp (Some q) 6 (90 <=? q) true
           else jpeg (Some q) (Some true) (Some true) true |} /\
    0 < w /\ 0 < h /\ 1 <= q <= 100 /\ In fmt ALLOWED_FORMATS.
Proof.
  intros Hval.
  apply validate_accepts_iff_core in Hval
    as (_ & (w & Hw & Hwpos) & (h & Hh & Hhpos) & (fmt & Hfmt & Hin) & (q & Hq & Hrange)).
  exists w, h, q, fmt. repeat split; try done; try lia.
  unfold processedImage, formatOf. rewrite Hw, Hh, Hq, Hfmt.
  unfold ALLOWED_FORMATS in Hin. simpl in Hin.
  destruct Hin as [<-|[<-|[<-|[<-|[]]]]]; reflexivity.
Qed.

Lemma validated_pipeline_witness :
  validate (request "640" "480" "webp" "90") = None /\
  exists w h q fmt,
    processedImage (request "640" "480" "webp" "90") samplePng =
      {| imageBuffer := samplePng;
         width := Some w;
         height := Some h;
         options :=
           {| fit := fill;
              background := if String.eqb fmt "png" then transparentBlack else opaqueWhite |};
         encoder :=
           if String.eqb fmt "png" then png (Some q) 9 true
           else if String.eqb fmt "webp" then webp (Some q) 6 (90 <=? q) true
           else jpeg (Some q) (Some true) (Some true) true |} /\
    0 < w /\ 0 < h /\ 1 <= q <= 100 /\ In fmt ALLOWED_FORMATS.
Proof.
  split; [reflexivity|].
  apply (validated_pipeline (request "640" "480" "webp" "90") samplePng). reflexivity.
Defined.

(** X6. Whatever the request and whatever the codec does, the endpoint
    answers in one of three ways: 400 with the message of a failing check,
    500 with the one fixed message (nothing of the codec's failure is
    passed on), or the codec's bytes for a request that passed validation. *)
Theorem POST_outcomes (formData : FormData.t)
    (toBuffer : Pipeline -> option (list Byte.byte)) :
  (exists c, fails formData c = true /\ POST formData toBuffer = Json 400 (message c)) \/
  (validate formData = None /\
   POST formData toBuffer = Json 500 "Failed to process image") \/
  (validate formData = None /\
   exists f headers body,
     toBuffer (processedImage formData f) = Some body /\
     POST formData toBuffer = Binary headers body).
Proof.
  destruct (validate formData) as [early|] eqn:Hval.
  - left. rewrite RouteFacts.validate_firstFailure in Hval.
    destruct (firstFailure formData) as [c|] eqn:Hfirst; [|done].
    injection Hval as <-. exists c. split.
    + by apply RouteFacts.firstFailure_first.
    + unfold POST. by rewrite RouteFacts.validate_firstFailure, Hfirst.
  - right. destruct (accepted_response_core formData toBuffer Hval)
      as (f & fmt & mime & _ & _ & _ & Hpost).
    destruct (toBuffer (processedImage formData f)) as [body|] eqn:Hcodec.
    + right. split; [done|]. eauto.
    + left. done.
Qed.

End RouteMore.

(* ===================================================================== *)
(** ** More on the session controller *)
(* ===================================================================== *)

Module PageMore.

Import JS Page Downloads Samples.

(** *** File names and formats *)

Lemma split_app (sep : ascii) (a b : string) :
  split sep (a +:+ String sep b) = split sep a ++ split sep b.
Proof.
  induction a as [|c a IH]; simpl.
  - by rewrite Ascii.eqb_refl.
  - destruct (Ascii.eqb c sep); [by rewrite IH|].
    rewrite IH. destruct (split sep a) as [|seg segs] eqn:Hsplit; [|done].
    by apply JSFacts.split_nonempty in Hsplit.
Qed.

Lemma last_split_app (sep : ascii) (a b : string) :
  last (split sep (a +:+ String sep b)) = last (split sep b).
Proof.
  rewrite split_app.
  destruct (split sep b) as [|seg segs] eqn:Hsplit.
  - by apply JSFacts.split_nonempty in Hsplit.
  - by rewrite last_app_cons.
Qed.

Lemma toLowerCase_extString (e : Ext) : toLowerCase (extString e) = extString e.
Proof. by destruct e. Qed.

Lemma extString_dotless (e : Ext) : dotless (extString e).
Proof.
  destruct e; intros c Hin; simpl in Hin;
    repeat (destruct Hin as [<-|Hin]; [done|]); destruct Hin.
Qed.

Lemma randomName_append (rand ext : string) :
  randomName rand ext = (rand +:+ "_byDimensify") +:+ String "." ext.
Proof.
  unfold randomName. induction rand as [|c rand IH]; [reflexivity|].
  change (String c (rand +:+ "_byDimensify." +:+ ext)
          = String c ((rand +:+ "_byDimensify") +:+ String "." ext)).
  by f_equal.
Qed.

Lemma extOf_suffix_core (base suffix type : string) (size : Z) :
  dotless suffix ->
  extOf {| File.name := base +:+ String "." suffix; File.type := type; File.size := size |}
    = Some (toLowerCase suffix).
Proof.
  intros Hdotless. unfold extOf, pop. simpl File.name.
  rewrite last_split_app, (JSFacts.split_no_separator _ _ Hdotless). done.
Qed.

(** X7. A name that ends in a dot followed by a dot-free suffix is given
    the format of that suffix, whatever comes before and in whatever letter
    case the suffix is written. *)
Theorem extOf_suffix (base suffix type : string) (size : Z) :
  dotless suffix ->
  extOf {| File.name := base +:+ String "." suffix; File.type := type; File.size := size |}
    = Some (toLowerCase suffix).
Proof. exact (extOf_suffix_core base suffix type size). Qed.

Lemma extOf_suffix_witness :
  dotless "PNG" /\
  extOf {| File.name := "holiday.2024" +:+ String "." "PNG"; File.type := "image/png"; File.size := 1 |}
    = Some (toLowerCase "PNG").
Proof.
  assert (dotless "PNG") as Hdotless.
  { intros c Hin. simpl in Hin.
    repeat (destruct Hin as [<-|Hin]; [done|]). destruct Hin. }
  split; [exact Hdotless|].
  apply (extOf_suffix "holiday.2024" "PNG" "image/png" 1 Hdotless).
Defined.

Lemma getExt_randomName_core (rand type : string) (size : Z) (e : Ext) :
  getExt {| File.name := randomName rand (extString e); File.type := type; File.size := size |}
    = e.
Proof.
  unfold getExt. rewrite randomName_append.
  rewrite (extOf_suffix_core _ _ _ _ (extString_dotless e)), toLowerCase_extString.
  by destruct e.
Qed.

(** X8. A result saved under the name [randomName] gives it and uploaded
    again is recognised with the format it was saved with, whatever the
    random part of the name is. *)
Theorem getExt_randomName (rand type : string) (size : Z) (e : Ext) :
  getExt {| File.name := randomName rand (extString e); File.type := type; File.size := size |}
    = e.
Proof. exact (getExt_randomName_core rand type size e). Qed.

(** *** A batch in which every request succeeds *)

Section Success.
Variable toString : double -> string.

Lemma awaitAll_step (job : Job) (outcome : FetchOutcome) (outcomes : list FetchOutcome)
    (s : State) :
  awaitAll toString job (outcome :: outcomes) s =
    match handleResize_resume toString job outcome s with
    | (s', Some (job', request)) =>
        let '(s'', sent, waiting) := awaitAll toString job' outcomes s' in
        (s'', request :: sent, waiting)
    | (s', None) => (s', [], None)
    end.
Proof. reflexivity. Qed.

Lemma awaitAll_all_ok (rest : list ImageData.t) :
  forall (job : Job) (url : string) (urls : list string) (s : State),
    remaining job = rest ->
    length urls = length rest ->
    awaitAll toString job (map ResponseOk (url :: urls)) s
      = (setIsLoading false
           (setResizedImages
              (fun _ => collect (newResizedImages job) (current job :: rest) (url :: urls)) s),
         map (formDataFor toString (options job)) rest,
         None).
Proof.
  induction rest as [|next rest' IH]; intros [cur rem opts acc] url urls s Hrem Hlen;
    simpl in Hrem; subst rem.
  - destruct urls; [|done]. reflexivity.
  - destruct urls as [|url' urls']; [done|]. injection Hlen as Hlen.
    change (map ResponseOk (url :: url' :: urls'))
      with (ResponseOk url :: map ResponseOk (url' :: urls')).
    rewrite awaitAll_step.
    cbn [handleResize_resume remaining current options newResizedImages].
    rewrite (IH _ url' urls' s) by done. reflexivity.
Qed.

Lemma collect_keys (images : list ImageData.t) :
  forall (urls : list string) (acc : gmap string string) (key : string),
    length urls = length images ->
    is_Some (collect acc images urls !! key) <->
    is_Some (acc !! key) \/ exists image, In image images /\ ImageData.id image = key.
Proof.
  induction images as [|image rest IH]; intros [|url urls] acc key Hlen; try done; simpl.
  - split; [by left|]. intros [?|(image & [] & _)]. done.
  - injection Hlen as Hlen. rewrite (IH urls _ key Hlen). split.
    + intros [Hkey|(other & Hin & Hid)].
      * destruct (decide (ImageData.id image = key)) as [Heq|Hne].
        { right. exists image. split; [by left | done]. }
        left. by rewrite lookup_insert_ne in Hkey.
      * right. exists other. split; [by right | done].
    + intros [Hkey|(other & [<-|Hin] & Hid)].
      * left. destruct (decide (ImageData.id image = key)) as [<-|Hne].
        { rewrite lookup_insert_eq. eauto. }
        by rewrite lookup_insert_ne.
      * left. subst key. rewrite lookup_insert_eq. eauto.
      * right. eauto.
Qed.

Lemma collect_untouched (images : list ImageData.t) :
  forall (urls : list string) (acc : gmap string string) (key : string),
    ~ In key (map ImageData.id images) ->
    collect acc images urls !! key = acc !! key.
Proof.
  induction images as [|image rest IH]; intros [|url urls] acc key Hnot; try done; simpl.
  rewrite IH.
  - apply lookup_insert_ne. intros Heq. apply Hnot. by left.
  - intros Hin. apply Hnot. by right.
Qed.

Lemma collect_value (images : list ImageData.t) :
  forall (urls : list string) (acc : gmap string string) (i : nat)
         (image : ImageData.t) (url : string),
    List.NoDup (map ImageData.id images) ->
    images !! i = Some image ->
    urls !! i = Some url ->
    collect acc images urls !! ImageData.id image = Some url.
Proof.
  induction images as [|first rest IH]; intros [|u urls] acc i image url Hnodup Himage Hurl;
    try done.
  apply List.NoDup_cons_iff in Hnodup as [Hfresh Hnodup].
  destruct i as [|i]; simpl in *.
  - injection Himage as <-. injection Hurl as <-.
    rewrite collect_untouched by done. apply lookup_insert_eq.
  - by apply (IH urls _ i).
Qed.

Lemma successful_batch_replaces_cache_core (s : State) (urls : list string) :
  originalImages s <> [] ->
  length urls = length (originalImages s) ->
  let '(s', sent, waiting) := handleResize toString (map ResponseOk urls) s in
  waiting = None /\
  error s' = None /\
  isLoading s' = false /\
  originalImages s' = originalImages s /\
  sent = map (formDataFor toString (resizeOptions s)) (originalImages s) /\
  resizedImages s' = collect ∅ (originalImages s) urls /\
  forall key,
    is_Some (resizedImages s' !! key) <->
    exists image, In image (originalImages s) /\ ImageData.id image = key.
Proof.
  intros Hnonempty Hlen. unfold handleResize, handleResize_call.
  destruct (originalImages s) as [|first rest] eqn:Horig; [done|].
  destruct urls as [|url urls']; [done|]. injection Hlen as Hlen.
  rewrite (awaitAll_all_ok rest _ url urls') by done.
  cbn -[collect]. repeat split; try done.
  - intros Hkey. apply (collect_keys (first :: rest) (url :: urls')) in Hkey as [Hkey|Hkey].
    + rewrite lookup_empty in Hkey. by destruct Hkey.
    + done.
    + simpl. by rewrite Hlen.
  - intros Himage. apply (collect_keys (first :: rest) (url :: urls')).
    + simpl. by rewrite Hlen.
    + by right.
Qed.

(** X9. When every request of a batch succeeds, the batch ends with
    loading off and no error, it has sent one request per staged image in
    order, and it replaces the cache: afterwards the cached keys are
    exactly the identifiers of the staged images, so results cached before
    under other keys are gone. *)
Theorem successful_batch_replaces_cache (s : State) (urls : list string) :
  originalImages s <> [] ->
  length urls = length (originalImages s) ->
  let '(s', sent, waiting) := handleResize toString (map ResponseOk urls) s in
  waiting = None /\
  error s' = None /\
  isLoading s' = false /\
  originalImages s' = originalImages s /\
  sent = map (formDataFor toString (resizeOptions s)) (originalImages s) /\
  resizedImages s' = collect ∅ (originalImages s) urls /\
  forall key,
    is_Some (resizedImages s' !! key) <->
    exists image, In image (originalImages s) /\ ImageData.id image = key.
Proof. exact (successful_batch_replaces_cache_core s urls). Qed.

(** X10. After such a batch, when the staged identifiers are pairwise
    distinct, looking up an image's identifier gives the URL made for that
    image's own response. *)
Theorem successful_batch_lookup (s : State) (urls : list string) (i : nat)
    (image : ImageData.t) (url : string) :
  length urls = length (originalImages s) ->
  List.NoDup (map ImageData.id (originalImages s)) ->
  originalImages s !! i = Some image ->
  urls !! i = Some url ->
  resizedImages (handleResize toString (map ResponseOk urls) s).1.1 !! ImageData.id image
    = Some url.
Proof.
  intros Hlen Hnodup Himage Hurl.
  assert (originalImages s <> []) as Hnonempty.
  { intros Hempty. by rewrite Hempty in Himage. }
  pose proof (successful_batch_replaces_cache_core s urls Hnonempty Hlen) as Hbatch.
  destruct (handleResize toString (map ResponseOk urls) s) as [[s' sent] waiting].
  destruct Hbatch as (_ & _ & _ & _ & _ & Hcache & _). simpl. rewrite Hcache.
  by apply (collect_value _ _ _ i).
Qed.

End Success.

Lemma successful_batch_replaces_cache_witness :
  (originalImages threeImages <> [] /\
   length ["blob:1"; "blob:2"; "blob:3"] = length (originalImages threeImages)) /\
  let '(s', sent, waiting) :=
    handleResize integralToString (map ResponseOk ["blob:1"; "blob:2"; "blob:3"]) threeImages in
  waiting = None /\
  error s' = None /\
  isLoading s' = false /\
  originalImages s' = originalImages threeImages /\
  sent = map (formDataFor integralToString (resizeOptions threeImages)) (originalImages threeImages) /\
  resizedImages s' = collect ∅ (originalImages threeImages) ["blob:1"; "blob:2"; "blob:3"] /\
  forall key,
    is_Some (resizedImages s' !! key) <->
    exists image, In image (originalImages threeImages) /\ ImageData.id image = key.
Proof.
  split; [split; [discriminate | reflexivity]|].
  apply (successful_batch_replaces_cache integralToString threeImages
           ["blob:1"; "blob:2"; "blob:3"]); [discriminate | reflexivity].
Defined.

Lemma threeImages_ids_distinct : List.NoDup (map ImageData.id (originalImages threeImages)).
Proof.
  change (List.NoDup ["ida"; "idb"; "idc"]).
  repeat constructor; simpl; intros Hin;
    repeat (destruct Hin as [Heq|Hin]; [discriminate|]); destruct Hin.
Qed.

Lemma successful_batch_lookup_witness :
  (length ["blob:1"; "blob:2"; "blob:3"] = length (originalImages threeImages) /\
   originalImages threeImages !! 1%nat = Some imageB /\
   ["blob:1"; "blob:2"; "blob:3"] !! 1%nat = Some "blob:2") /\
  resizedImages
    (handleResize integralToString (map ResponseOk ["blob:1"; "blob:2"; "blob:3"]) threeImages).1.1
    !! ImageData.id imageB = Some "blob:2".
Proof.
  split; [repeat split|].
  apply (successful_batch_lookup integralToString threeImages
           ["blob:1"; "blob:2"; "blob:3"] 1 imageB "blob:2");
    [reflexivity | exact threeImages_ids_distinct | reflexivity | reflexivity].
Defined.

(** *** The page against the endpoint *)

Section EndToEnd.
Variable toString : double -> string.
Variable toBuffer : Route.Pipeline -> option (list Byte.byte).
Variable objectURL : nat -> string.

Lemma formData_entries (opts : ResizeOptions.t) (image : ImageData.t) :
  formDataFor toString opts image =
    [ ("image", FormData.Blob (ImageData.file image));
      ("width", FormData.Str (toString (ResizeOptions.width opts)));
      ("height", FormData.Str (toString (ResizeOptions.height opts)));
      ("format", FormData.Str (extString (ImageData.ext image)));
      ("quality", FormData.Str (toString (ResizeOptions.quality opts))) ].
Proof. reflexivity. Qed.

Lemma extString_allowed (e : Ext) : In (extString e) Route.ALLOWED_FORMATS.
Proof. destruct e; simpl; tauto. Qed.

Lemma imap_outcomes (images : list ImageData.t) :
  forall (f : nat -> ImageData.t -> FetchOutcome) (g : nat -> string),
    (forall i image, images !! i = Some image -> f i image = ResponseOk (g i)) ->
    imap f images = map ResponseOk (imap (fun i _ => g i) images).
Proof.
  induction images as [|image rest IH]; intros f g Hall; [done|]. simpl. f_equal.
  - apply (Hall 0%nat). done.
  - apply (IH (f ∘ S) (g ∘ S)). intros i image' Hlookup. apply (Hall (S i)). done.
Qed.

Lemma page_request_validates_core (opts : ResizeOptions.t) (image : ImageData.t) (w h q : Z) :
  validateFile (ImageData.file image) = None ->
  toString (ResizeOptions.width opts) = digitsOfZ w -> 0 < w ->
  toString (ResizeOptions.height opts) = digitsOfZ h -> 0 < h ->
  toString (ResizeOptions.quality opts) = digitsOfZ q -> 1 <= q <= 100 ->
  Route.validate (formDataFor toString opts image) = None.
Proof.
  intros Hfile Hw Hwpos Hh Hhpos Hq Hrange.
  apply RouteMore.validate_accepts_iff_core. rewrite formData_entries.
  unfold Route.widthOf, Route.heightOf, Route.qualityOf. simpl.
  rewrite Hw, Hh, Hq, !WireFacts.parseInt_digitsOfZ_core.
  split; [|split; [eauto|split; [eauto|split; [|eauto]]]].
  - exists (ImageData.file image). split; [done|].
    unfold validateFile in Hfile. destruct (_ >? _); [done|].
    destruct (includes ALLOWED_TYPES _) eqn:Hin; [|done].
    apply JSFacts.includes_In in Hin as (type & [= <-] & Hin). exact Hin.
  - exists (extString (ImageData.ext image)). split; [done|]. apply extString_allowed.
Qed.

(** X11. A request the page builds passes the endpoint's validation
    whenever the image's file is of a type the page accepts and the
    settings print as a positive width, a positive height and a quality
    from 1 to 100: the two allow-lists agree and every format the page can
    record is one the endpoint knows. *)
Theorem page_request_validates (opts : ResizeOptions.t) (image : ImageData.t) (w h q : Z) :
  validateFile (ImageData.file image) = None ->
  toString (ResizeOptions.width opts) = digitsOfZ w -> 0 < w ->
  toString (ResizeOptions.height opts) = digitsOfZ h -> 0 < h ->
  toString (ResizeOptions.quality opts) = digitsOfZ q -> 1 <= q <= 100 ->
  Route.validate (formDataFor toString opts image) = None.
Proof. exact (page_request_validates_core opts image w h q). Qed.

(** X12. With such settings, files the page accepted and a codec that
    does not fail, a batch resize run against the endpoint succeeds for
    every staged image: it ends without error and with a cached result
    under each staged identifier. *)
Theorem online_batch_succeeds (s : State) (w h q : Z) :
  originalImages s <> [] ->
  (forall image, In image (originalImages s) -> validateFile (ImageData.file image) = None) ->
  toString (ResizeOptions.width (resizeOptions s)) = digitsOfZ w -> 0 < w ->
  toString (ResizeOptions.height (resizeOptions s)) = digitsOfZ h -> 0 < h ->
  toString (ResizeOptions.quality (resizeOptions s)) = digitsOfZ q -> 1 <= q <= 100 ->
  (forall pipeline, is_Some (toBuffer pipeline)) ->
  let '(s', sent, waiting) := handleResizeOnline toString toBuffer objectURL s in
  waiting = None /\
  error s' = None /\
  isLoading s' = false /\
  length sent = length (originalImages s) /\
  forall image, In image (originalImages s) ->
    is_Some (resizedImages s' !! ImageData.id image).
Proof.
  intros Hnonempty Hfiles Hw Hwpos Hh Hhpos Hq Hrange Hcodec.
  unfold handleResizeOnline.
  rewrite (imap_outcomes (originalImages s) _ objectURL).
  - pose proof (successful_batch_replaces_cache_core toString s
                  (imap (fun i _ => objectURL i) (originalImages s)) Hnonempty) as Hbatch.
    rewrite length_imap in Hbatch. specialize (Hbatch eq_refl).
    destruct (handleResize toString _ s) as [[s' sent] waiting].
    destruct Hbatch as (-> & -> & -> & _ & -> & _ & Hkeys).
    repeat split; [by rewrite length_map|].
    intros image Hin. apply Hkeys. eauto.
  - intros i image Hlookup.
    assert (In image (originalImages s)) as Hin.
    { apply list_elem_of_In, list_elem_of_lookup. eauto. }
    pose proof (page_request_validates_core (resizeOptions s) image w h q
                  (Hfiles image Hin) Hw Hwpos Hh Hhpos Hq Hrange) as Hval.
    destruct (RouteMore.accepted_response_core _ toBuffer Hval)
      as (f & fmt & mime & _ & _ & _ & ->).
    destruct (Hcodec (Route.processedImage (formDataFor toString (resizeOptions s) image) f))
      as [body ->].
    reflexivity.
Qed.

(** X13. When the width or the height the page sends is one the endpoint
    rejects (it prints as something [parseInt] reads as NaN, zero or a
    negative number, as for a width of 0), a batch resize run
    against the endpoint stops at the first image: one request is sent,
    the error names the first file and the cache is left as it was. *)
Theorem online_batch_rejected (s : State) (first : ImageData.t) (rest : list ImageData.t) :
  originalImages s = first :: rest ->
  Route.rejectedDimension (Some (FormData.Str (toString (ResizeOptions.width (resizeOptions s)))))
  \/ Route.rejectedDimension (Some (FormData.Str (toString (ResizeOptions.height (resizeOptions s))))) ->
  let '(s', sent, waiting) := handleResizeOnline toString toBuffer objectURL s in
  waiting = None /\
  error s' = Some ("Failed to resize image: " +:+ File.name (ImageData.file first)) /\
  isLoading s' = false /\
  resizedImages s' = resizedImages s /\
  sent = [formDataFor toString (resizeOptions s) first].
Proof.
  intros Himages Hdim. unfold handleResizeOnline, handleResize, handleResize_call.
  rewrite Himages. cbn [imap].
  assert (exists msg, Route.POST (formDataFor toString (resizeOptions s) first) toBuffer
                      = Route.Json 400 msg) as [msg Hpost].
  { assert (Route.invalidDimensions (formDataFor toString (resizeOptions s) first) = true) as Hbad.
    { unfold Route.invalidDimensions.
      change (Route.widthOf (formDataFor toString (resizeOptions s) first))
        with (parseInt (toString (ResizeOptions.width (resizeOptions s)))).
      change (Route.heightOf (formDataFor toString (resizeOptions s) first))
        with (parseInt (toString (ResizeOptions.height (resizeOptions s)))).
      destruct Hdim as [Hd|Hd]; apply RouteFacts.rejectedDimension_tests in Hd; simpl in Hd;
        apply orb_true_iff in Hd as [Hd|Hd]; rewrite Hd; rewrite ?orb_true_r; done. }
    unfold Route.POST, Route.validate. rewrite Hbad.
    destruct (Route.missingImage _); [eauto|]. destruct (Route.unsupportedType _); eauto. }
  rewrite Hpost. cbn [outcomeOf]. change ((200 <=? 400) && (400 <=? 299)) with false.
  cbv beta iota.
  match goal with |- context [awaitAll toString ?j (ResponseNotOk 400 :: ?tl) ?s0] =>
    pose proof (PageFacts.awaitAll_fails toString [] j [] 400 tl s0 first rest eq_refl eq_refl)
      as Hfail;
    cbn [map app] in Hfail; rewrite Hfail
  end.
  simpl. done.
Qed.

End EndToEnd.

Lemma page_request_validates_witness :
  (validateFile (ImageData.file imageA) = None /\
   integralToString (ResizeOptions.width (resizeOptions threeImages)) = digitsOfZ 30 /\ 0 < 30 /\
   integralToString (ResizeOptions.height (resizeOptions threeImages)) = digitsOfZ 40 /\ 0 < 40 /\
   integralToString (ResizeOptions.quality (resizeOptions threeImages)) = digitsOfZ 100 /\
   1 <= 100 <= 100) /\
  Route.validate (formDataFor integralToString (resizeOptions threeImages) imageA) = None.
Proof.
  split; [repeat split; lia|].
  apply (page_request_validates integralToString (resizeOptions threeImages) imageA 30 40 100);
    first [reflexivity | lia].
Defined.

Lemma online_batch_succeeds_witness :
  (originalImages threeImages <> [] /\
   (forall image, In image (originalImages threeImages) ->
      validateFile (ImageData.file image) = None) /\
   (forall pipeline, is_Some (emptyCodec pipeline))) /\
  let '(s', sent, waiting) :=
    handleResizeOnline integralToString emptyCodec (fun _ => "blob:x") threeImages in
  waiting = None /\
  error s' = None /\
  isLoading s' = false /\
  length sent = length (originalImages threeImages) /\
  forall image, In image (originalImages threeImages) ->
    is_Some (resizedImages s' !! ImageData.id image).
Proof.
  assert (forall image, In image (originalImages threeImages) ->
            validateFile (ImageData.file image) = None) as Hfiles.
  { intros image [<-|[<-|[<-|[]]]]; reflexivity. }
  assert (forall pipeline, is_Some (emptyCodec pipeline)) as Hcodec.
  { intros pipeline. unfold emptyCodec. eauto. }
  split; [split; [discriminate | split; [exact Hfiles | exact Hcodec]]|].
  apply (online_batch_succeeds integralToString emptyCodec (fun _ => "blob:x")
           threeImages 30 40 100);
    first [discriminate | exact Hfiles | exact Hcodec | reflexivity | lia].
Defined.

Lemma online_batch_rejected_witness :
  (originalImages zeroWidth = imageA :: [imageB] /\
   Route.rejectedDimension
     (Some (FormData.Str (integralToString (ResizeOptions.width (resizeOptions zeroWidth)))))) /\
  let '(s', sent, waiting) :=
    handleResizeOnline integralToString emptyCodec (fun _ => "blob:x") zeroWidth in
  waiting = None /\
  error s' = Some ("Failed to resize image: " +:+ File.name (ImageData.file imageA)) /\
  isLoading s' = false /\
  resizedImages s' = resizedImages zeroWidth /\
  sent = [formDataFor integralToString (resizeOptions zeroWidth) imageA].
Proof.
  assert (Route.rejectedDimension
            (Some (FormData.Str (integralToString (ResizeOptions.width (resizeOptions zeroWidth))))))
    as Hwidth.
  { vm_compute. discriminate. }
  split; [split; [reflexivity | exact Hwidth]|].
  apply (online_batch_rejected integralToString emptyCodec (fun _ => "blob:x")
           zeroWidth imageA [imageB]); [reflexivity | left; exact Hwidth].
Defined.

(** *** What every session keeps *)

Section Invariants.
Variable toString : double -> string.

Lemma resume_originalImages (job : Job) (outcome : FetchOutcome) (s : State) :
  originalImages (handleResize_resume toString job outcome s).1 = originalImages s.
Proof. destruct outcome; simpl; [destruct (remaining job)|..]; done. Qed.

Lemma awaitAll_originalImages (outcomes : list FetchOutcome) :
  forall (job : Job) (s : State),
    originalImages (awaitAll toString job outcomes s).1.1 = originalImages s.
Proof.
  induction outcomes as [|outcome rest IH]; intros job s; [done|].
  rewrite awaitAll_step.
  pose proof (resume_originalImages job outcome s) as Hresume.
  destruct (handleResize_resume toString job outcome s) as [s' [[job' request]|]]; [|done].
  specialize (IH job' s').
  destruct (awaitAll toString job' rest s') as [[s'' sent] waiting]. simpl in *. congruence.
Qed.

(** A batch resize never changes which images are staged. *)
Lemma handleResize_originalImages (outcomes : list FetchOutcome) (s : State) :
  originalImages (handleResize toString outcomes s).1.1 = originalImages s.
Proof.
  unfold handleResize, handleResize_call.
  destruct (originalImages s) as [|first rest] eqn:Horig; [done|].
  match goal with |- context [awaitAll toString ?j outcomes ?s0] =>
    pose proof (awaitAll_originalImages outcomes j s0) as Hrun;
    destruct (awaitAll toString j outcomes s0) as [[s' sent] waiting]
  end.
  simpl in *. congruence.
Qed.

Lemma wellStaged_same (s s' : State) :
  originalImages s' = originalImages s -> wellStaged s -> wellStaged s'.
Proof. unfold wellStaged. by intros ->. Qed.

Lemma in_zip_tasks (tasks : list LoadTask) (decoded : list Loaded) (load : LoadTask * Loaded) :
  In load (zip tasks decoded) -> In load.1 tasks.
Proof.
  revert decoded. induction tasks as [|task rest IH]; intros [|img decoded] Hin; try done.
  destruct Hin as [<-|Hin]; [by left | right; eauto].
Qed.

Lemma length_zip_tasks (tasks : list LoadTask) (decoded : list Loaded) :
  (length (zip tasks decoded) <= length tasks)%nat.
Proof.
  revert decoded. induction tasks as [|task rest IH]; intros [|img decoded]; simpl; try lia.
  specialize (IH decoded). lia.
Qed.

Lemma wellStaged_stageFiles (fileArray : list File.t) (decoded : list Loaded) (s : State) :
  wellStaged s -> wellStaged (stageFiles fileArray decoded s).
Proof.
  intros [Hcount Hvalid]. unfold stageFiles, handleFileSelect.
  destruct (Z.gtb_spec (Z.of_nat (length (originalImages s)) + Z.of_nat (length fileArray)) MAX_IMAGES)
    as [Hover|Hfit]; [done|].
  pose proof (PageFacts.forEachFile_tasks (length (originalImages s)) fileArray false s) as [Htasks _].
  pose proof (PageFacts.forEachFile_state (length (originalImages s)) fileArray false s) as Hstate.
  destruct (forEachFile (length (originalImages s)) fileArray false s) as [[hasError s'] tasks].
  destruct Hstate as (Horig & _). simpl in Htasks.
  assert (originalImages (if negb hasError then setError None s' else s') = originalImages s)
    as Horig' by (destruct hasError; done).
  match goal with |- wellStaged (completeLoads ?loads ?s0) =>
    destruct (PageFacts.completeLoads_state loads s0) as (Hloaded & _)
  end.
  unfold wellStaged. rewrite Hloaded, Horig'. split.
  - rewrite length_app, length_map.
    pose proof (length_zip_tasks tasks decoded) as Hzip.
    assert (length tasks <= length fileArray)%nat as Hshort.
    { rewrite <- (length_map taskFile), Htasks. unfold accepted. apply length_filter. }
    lia.
  - intros image Hin. apply in_app_or in Hin as [Hold|Hnew]; [by apply Hvalid|].
    apply in_map_iff in Hnew as (load & <- & Hload). split; [|done].
    apply in_zip_tasks in Hload.
    assert (In (taskFile load.1) (accepted fileArray)) as Haccepted.
    { rewrite <- Htasks. by apply in_map. }
    unfold accepted in Haccepted.
    apply list_elem_of_In, list_elem_of_filter in Haccepted as [Hok _]. exact Hok.
Qed.

Lemma wellStaged_removeImage (imageId : string) (s : State) :
  wellStaged s -> wellStaged (removeImage imageId s).
Proof.
  intros [Hcount Hvalid]. unfold wellStaged, removeImage. simpl. split.
  - pose proof (length_filter (fun img => ImageData.id img ≠ imageId) (originalImages s)). lia.
  - intros image Hin. apply Hvalid.
    apply list_elem_of_In, list_elem_of_filter in Hin as [_ Hin]. by apply list_elem_of_In.
Qed.

Lemma handleDimensionChange_originalImages (type : Dimension) (value : double) (s : State) :
  originalImages (handleDimensionChange type value s) = originalImages s /\
  resizedImages (handleDimensionChange type value s) = resizedImages s.
Proof.
  unfold handleDimensionChange. destruct (originalImages s) eqn:Horig; [done|].
  destruct (ResizeOptions.maintainAspectRatio _), type; simpl; by rewrite Horig.
Qed.

(** X14. Whatever the user does, as long as each action runs to its end
    before the next one starts: the session never holds more than ten
    images, every staged image comes from a file of at most 5 MB and of an
    allowed type and carries the format [getExt] infers from that file's
    name, and every key of the cache is the identifier of a staged image. *)
Theorem reachable_invariants (s : State) :
  Reachable toString s ->
  Z.of_nat (length (originalImages s)) <= 10 /\
  (forall image, In image (originalImages s) ->
     File.size (ImageData.file image) <= 5 * 1024 * 1024 /\
     In (File.type (ImageData.file image)) ALLOWED_TYPES /\
     ImageData.ext image = getExt (ImageData.file image)) /\
  cacheWithinStaged s.
Proof.
  intros Hreach.
  assert (wellStaged s /\ cacheWithinStaged s) as [[Hcount Hvalid] Hcache].
  { induction Hreach as [|fileArray decoded s _ [Hw Hc]|type value s _ [Hw Hc]|f s _ [Hw Hc]
                         |outcomes s _ [Hw Hc]|imageId s _ [Hw Hc]|s _ [Hw Hc]].
    - split; [|apply PageFacts.cache_initial]. split; [done|]. intros image [].
    - split; [by apply wellStaged_stageFiles | by apply PageFacts.cache_stageFiles].
    - split; [|by apply PageFacts.cache_handleDimensionChange].
      apply (wellStaged_same s); [|done]. apply handleDimensionChange_originalImages.
    - split; [by apply (wellStaged_same s) | by apply (PageFacts.cache_grow s)].
    - split; [|by apply PageFacts.cache_handleResize].
      apply (wellStaged_same s); [|done]. apply handleResize_originalImages.
    - split; [by apply wellStaged_removeImage | by apply PageFacts.cache_removeImage].
    - split; [|apply PageFacts.cache_clearAll]. split; [done|]. intros image []. }
  split; [exact Hcount|]. split; [|exact Hcache].
  intros image Hin. destruct (Hvalid image Hin) as [Hfile Hext].
  split; [|split; [|exact Hext]].
  - unfold validateFile in Hfile.
    destruct (Z.gtb_spec (File.size (ImageData.file image)) MAX_FILE_SIZE) as [|Hsize]; [done|].
    exact Hsize.
  - unfold validateFile in Hfile. destruct (_ >? _); [done|].
    destruct (includes ALLOWED_TYPES _) eqn:Hin'; [|done].
    apply JSFacts.includes_In in Hin' as (type & [= <-] & Hallowed). exact Hallowed.
Qed.

End Invariants.

Lemma reachable_invariants_witness :
  Reachable integralToString (removeImage "idb" threeImages) /\
  Z.of_nat (length (originalImages (removeImage "idb" threeImages))) <= 10 /\
  (forall image, In image (originalImages (removeImage "idb" threeImages)) ->
     File.size (ImageData.file image) <= 5 * 1024 * 1024 /\
     In (File.type (ImageData.file image)) ALLOWED_TYPES /\
     ImageData.ext image = getExt (ImageData.file image)) /\
  cacheWithinStaged (removeImage "idb" threeImages).
Proof.
  assert (Reachable integralToString (removeImage "idb" threeImages)) as Hreach.
  { apply reach_remove, reach_stage, reach_initial. }
  split; [exact Hreach|].
  apply (reachable_invariants integralToString (removeImage "idb" threeImages) Hreach).
Defined.

(** Two selections made before any load completes both pass the count
    check and together stage more than ten images: the bound needs each
    batch-add to finish before the next one starts. *)
Example overlapping_selections_exceed_limit :
  let '(s1, first) := handleFileSelect (repeat fileA 6) initialState in
  let '(s2, second) := handleFileSelect (repeat fileA 6) s1 in
  let s3 := completeLoads (zip (first ++ second) (repeat loadedA 12)) s2 in
  length (originalImages s3) = 12%nat.
Proof. reflexivity. Qed.

(** *** Removing an image *)

Lemma removeImage_effect_core (imageId : string) (s : State) :
  let s' := removeImage imageId s in
  (forall image, In image (originalImages s') <->
     In image (originalImages s) /\ ImageData.id image <> imageId) /\
  resizedImages s' !! imageId = None /\
  (forall key, key <> imageId -> resizedImages s' !! key = resizedImages s !! key) /\
  ((forall image, In image (originalImages s) -> ImageData.id image <> imageId) ->
   resizedImages s !! imageId = None ->
   s' = s).
Proof.
  simpl. split; [|split; [|split]].
  - intros image. unfold removeImage. simpl.
    rewrite <- !list_elem_of_In, list_elem_of_filter. tauto.
  - apply lookup_delete_eq.
  - intros key Hne. unfold removeImage. simpl. by apply lookup_delete_ne.
  - intros Hnone Hmissing. unfold removeImage, setResizedImages, setOriginalImages.
    destruct s as [images cache loading err opts]. simpl in *. f_equal.
    + clear Hmissing. induction images as [|image rest IH]; [done|].
      rewrite filter_cons_True by (apply Hnone; by left).
      f_equal. apply IH. intros other Hin. apply Hnone. by right.
    + by apply delete_id.
Qed.

(** X15. Removing an identifier drops every staged image that carries it
    and its cached result, keeps all other images in their order and all
    other cached results, and changes nothing at all when no staged image
    and no cached result has that identifier. *)
Theorem removeImage_effect (imageId : string) (s : State) :
  let s' := removeImage imageId s in
  (forall image, In image (originalImages s') <->
     In image (originalImages s) /\ ImageData.id image <> imageId) /\
  resizedImages s' !! imageId = None /\
  (forall key, key <> imageId -> resizedImages s' !! key = resizedImages s !! key) /\
  ((forall image, In image (originalImages s) -> ImageData.id image <> imageId) ->
   resizedImages s !! imageId = None ->
   s' = s).
Proof. exact (removeImage_effect_core imageId s). Qed.

(** *** Downloads *)

Lemma findOriginal_Some (imageId : string) (s : State) (image : ImageData.t) :
  findOriginal imageId s = Some image ->
  In image (originalImages s) /\ ImageData.id image = imageId.
Proof.
  intros Hfind. apply find_some in Hfind as [Hin Heq].
  by apply String.eqb_eq in Heq.
Qed.

Lemma findOriginal_None (imageId : string) (s : State) :
  findOriginal imageId s = None ->
  forall image, In image (originalImages s) -> ImageData.id image <> imageId.
Proof.
  intros Hfind image Hin Hid.
  pose proof (find_none _ _ Hfind image Hin) as Hneq. simpl in Hneq.
  rewrite Hid, String.eqb_refl in Hneq. discriminate.
Qed.

(** X16. In a session where every cached key belongs to a staged image, a
    download always takes its format from a staged image with that
    identifier (the first one), never from the jpeg fallback; the saved
    name then reads back, through [getExt], as that image's format. *)
Theorem download_uses_staged_format (rand imageId href name : string) (s : State) :
  cacheWithinStaged s ->
  handleDownload rand imageId s = Some (href, name) ->
  resizedImages s !! imageId = Some href /\
  exists image,
    findOriginal imageId s = Some image /\
    In image (originalImages s) /\
    ImageData.id image = imageId /\
    name = randomName rand (extString (ImageData.ext image)) /\
    forall type size,
      getExt {| File.name := name; File.type := type; File.size := size |}
        = ImageData.ext image.
Proof.
  intros Hinv. unfold handleDownload, cached.
  destruct (resizedImages s !! imageId) as [url|] eqn:Hurl; [|done].
  destruct (String.eqb url ""); [done|].
  destruct (findOriginal imageId s) as [image|] eqn:Hfind.
  - intros [= <- <-]. split; [done|].
    destruct (findOriginal_Some _ _ _ Hfind) as [Hin Hid].
    exists image. repeat split; try done.
    intros type size. apply getExt_randomName_core.
  - exfalso. destruct (Hinv imageId) as (image & Hin & Hid); [eauto|].
    by apply (findOriginal_None _ _ Hfind image).
Qed.

Lemma download_uses_staged_format_witness :
  let s := (handleResize integralToString
              (map ResponseOk ["blob:1"; "blob:2"; "blob:3"]) threeImages).1.1 in
  (cacheWithinStaged s /\
   handleDownload "k3x9q0ab" "idc" s = Some ("blob:3", "k3x9q0ab_byDimensify.jpg")) /\
  resizedImages s !! "idc" = Some "blob:3" /\
  exists image,
    findOriginal "idc" s = Some image /\
    In image (originalImages s) /\
    ImageData.id image = "idc" /\
    "k3x9q0ab_byDimensify.jpg" = randomName "k3x9q0ab" (extString (ImageData.ext image)) /\
    forall type size,
      getExt {| File.name := "k3x9q0ab_byDimensify.jpg"; File.type := type; File.size := size |}
        = ImageData.ext image.
Proof.
  assert (cacheWithinStaged
            (handleResize integralToString
               (map ResponseOk ["blob:1"; "blob:2"; "blob:3"]) threeImages).1.1) as Hinv.
  { apply PageFacts.cache_handleResize, PageFacts.cache_stageFiles, PageFacts.cache_initial. }
  cbv zeta. split; [split; [exact Hinv | reflexivity]|].
  apply (download_uses_staged_format "k3x9q0ab" "idc" "blob:3" "k3x9q0ab_byDimensify.jpg" _ Hinv).
  reflexivity.
Defined.

(** X17. Once an image is removed nothing can be downloaded under its
    identifier, and after a clear nothing can be downloaded at all. *)
Theorem no_download_after_removal (rand imageId : string) (s : State) :
  handleDownload rand imageId (removeImage imageId s) = None /\
  forall other, handleDownload rand other (clearAll s) = None.
Proof.
  split.
  - unfold handleDownload, cached, removeImage. simpl. by rewrite lookup_delete_eq.
  - intros other. unfold handleDownload, cached, clearAll. simpl. by rewrite lookup_empty.
Qed.

(** The orphan a removal during a batch leaves behind is downloaded with
    the fallback format. *)
Example orphan_downloads_as_jpeg :
  let s0 := stageFiles [fileA] [loadedA] initialState in
  match handleResize_call integralToString s0 with
  | (s1, Some (job, _)) =>
      let s3 := (handleResize_resume integralToString job (ResponseOk "blob:1")
                   (removeImage "ida" s1)).1 in
      handleDownload "k3x9q0ab" "ida" s3 = Some ("blob:1", "k3x9q0ab_byDimensify.jpeg")
  | _ => False
  end.
Proof. reflexivity. Qed.

Lemma omap_shorter {A B : Type} (f : A -> option B) (l : list A) :
  (length (omap f l) <= length l)%nat.
Proof.
  unfold omap. induction l as [|x l IH]; simpl; [done|].
  destruct (f x); simpl; lia.
Qed.

(** The images an archive entry can come from: staged, with a cached
    result. *)
Lemma zipFiles_entries (rand : nat -> string) (s : State) (images : list ImageData.t) :
  forall (calls : nat),
    map snd (zipFiles rand calls images s)
      = omap (fun image => cached s (ImageData.id image)) images /\
    forall i name url,
      zipFiles rand calls images s !! i = Some (name, url) ->
      exists image,
        In image images /\
        cached s (ImageData.id image) = Some url /\
        name = randomName (rand (calls + i)%nat) (extString (ImageData.ext image)).
Proof.
  induction images as [|image rest IH]; intros calls; simpl; [done|].
  destruct (cached s (ImageData.id image)) as [url|] eqn:Hcached; simpl.
  - destruct (IH (S calls)) as [IHurls IHnames]. split; [by rewrite IHurls|].
    intros [|i] name url' Hlookup; simpl in Hlookup.
    + injection Hlookup as <- <-. exists image. rewrite Nat.add_0_r. by repeat split; [left|..].
    + destruct (IHnames i name url' Hlookup) as (other & Hin & Hc & Hname).
      exists other. split; [by right|]. split; [done|].
      by replace (calls + S i)%nat with (S calls + i)%nat by lia.
  - destruct (IH calls) as [IHurls IHnames]. split; [done|].
    intros i name url' Hlookup.
    destruct (IHnames i name url' Hlookup) as (other & Hin & Hc & Hname).
    exists other. split; [by right | done].
Qed.

Lemma archive_entries_core (rand : nat -> string) (s : State) :
  let entries := (handleDownloadAllZip rand s).1 in
  map snd entries = omap (fun image => cached s (ImageData.id image)) (originalImages s) /\
  (length entries <= length (originalImages s))%nat /\
  forall i name url,
    entries !! i = Some (name, url) ->
    exists image,
      In image (originalImages s) /\
      resizedImages s !! ImageData.id image = Some url /\
      name = randomName (rand i) (extString (ImageData.ext image)) /\
      forall type size,
        getExt {| File.name := name; File.type := type; File.size := size |}
          = ImageData.ext image.
Proof.
  simpl. destruct (zipFiles_entries rand s (originalImages s) 0) as [Hurls Hnames].
  split; [exact Hurls|]. split.
  - rewrite <- (length_map snd), Hurls. apply omap_shorter.
  - intros i name url Hlookup.
    destruct (Hnames i name url Hlookup) as (image & Hin & Hcached & ->).
    exists image. split; [done|]. split; [|split; [done|]].
    + unfold cached in Hcached.
      destruct (resizedImages s !! ImageData.id image) as [u|]; [|done].
      destruct (String.eqb u ""); [done|]. done.
    + intros type size. apply getExt_randomName_core.
Qed.

(** X18. The archive of "download all" gets one entry per staged image
    that has a cached result, in the order the images were staged, each
    named with that image's own format; images without a result, and
    cached results whose image is no longer staged, get no entry. *)
Theorem archive_entries (rand : nat -> string) (s : State) :
  let entries := (handleDownloadAllZip rand s).1 in
  map snd entries = omap (fun image => cached s (ImageData.id image)) (originalImages s) /\
  (length entries <= length (originalImages s))%nat /\
  forall i name url,
    entries !! i = Some (name, url) ->
    exists image,
      In image (originalImages s) /\
      resizedImages s !! ImageData.id image = Some url /\
      name = randomName (rand i) (extString (ImageData.ext image)) /\
      forall type size,
        getExt {| File.name := name; File.type := type; File.size := size |}
          = ImageData.ext image.
Proof. exact (archive_entries_core rand s). Qed.

(** X19. After an image is removed, "download all" has no entry for it:
    every entry of the archive comes from a staged image with another
    identifier. *)
Theorem archive_excludes_removed (rand : nat -> string) (imageId : string) (s : State) :
  forall i name url,
    (handleDownloadAllZip rand (removeImage imageId s)).1 !! i = Some (name, url) ->
    exists image,
      In image (originalImages s) /\
      ImageData.id image <> imageId /\
      resizedImages s !! ImageData.id image = Some url.
Proof.
  intros i name url Hlookup.
  destruct (archive_entries_core rand (removeImage imageId s)) as (_ & _ & Hnames).
  destruct (Hnames i name url Hlookup) as (image & Hin & Hcached & _).
  destruct (removeImage_effect_core imageId s) as (Himages & _ & Hothers & _).
  apply Himages in Hin as [Hin Hne].
  exists image. split; [done|]. split; [done|]. by rewrite <- Hothers.
Qed.

Lemma archive_excludes_removed_witness :
  let s := (handleResize integralToString
              (map ResponseOk ["blob:1"; "blob:2"; "blob:3"]) threeImages).1.1 in
  (handleDownloadAllZip (fun _ => "k3x9q0ab") (removeImage "idb" s)).1 !! 1%nat
    = Some ("k3x9q0ab_byDimensify.jpg", "blob:3") /\
  exists image,
    In image (originalImages s) /\
    ImageData.id image <> "idb" /\
    resizedImages s !! ImageData.id image = Some "blob:3".
Proof.
  cbv zeta. split; [reflexivity|].
  apply (archive_excludes_removed (fun _ => "k3x9q0ab") "idb" _ 1
           "k3x9q0ab_byDimensify.jpg" "blob:3").
  reflexivity.
Defined.

(** *** Sizes *)

Lemma fold_left_total (g : ImageData.t -> Z) (images : list ImageData.t) :
  forall start,
    fold_left (fun acc image => acc + g image) images start
      = start + foldr (fun image total => g image + total) 0 images.
Proof.
  induction images as [|image rest IH]; intros start; simpl; [lia|].
  rewrite IH. lia.
Qed.

Lemma totalResizedSize_sum (s : State) :
  totalResizedSize s =
    foldr (fun image total =>
             match cached s (ImageData.id image) with
             | Some _ => File.size (ImageData.file image)
             | None => 0
             end + total)
          0 (originalImages s).
Proof. unfold totalResizedSize. by rewrite fold_left_total. Qed.

Lemma collect_values (images : list ImageData.t) :
  forall (urls : list string) (acc : gmap string string) (key url : string),
    collect acc images urls !! key = Some url ->
    acc !! key = Some url \/ In url urls.
Proof.
  induction images as [|image rest IH]; intros [|u urls] acc key url Hlookup; simpl in *;
    try by left.
  destruct (IH urls _ key url Hlookup) as [Hacc|Hin]; [|right; by right].
  destruct (decide (ImageData.id image = key)) as [<-|Hne].
  - rewrite lookup_insert_eq in Hacc. injection Hacc as ->. right. by left.
  - rewrite lookup_insert_ne in Hacc by done. by left.
Qed.

(** X20. The size shown on "download all" adds up the sizes of the
    original files of the images that have a cached result. With files of
    non-negative size it lies between 0 and the total of all staged
    originals; with an empty cache it is 0. *)
Theorem totalResizedSize_bounds (s : State) :
  (forall image, In image (originalImages s) -> 0 <= File.size (ImageData.file image)) ->
  0 <= totalResizedSize s <= originalBytes (originalImages s) /\
  (resizedImages s = ∅ -> totalResizedSize s = 0).
Proof.
  intros Hsizes. rewrite totalResizedSize_sum. unfold originalBytes, cached. split.
  - induction (originalImages s) as [|image rest IH]; simpl; [lia|].
    assert (0 <= File.size (ImageData.file image)) as Hsize by (apply Hsizes; by left).
    assert (forall other, In other rest -> 0 <= File.size (ImageData.file other)) as Hrest
      by (intros other Hin; apply Hsizes; by right).
    specialize (IH Hrest).
    destruct (resizedImages s !! ImageData.id image) as [url|]; [destruct (String.eqb url "")|];
      lia.
  - intros ->. clear Hsizes. induction (originalImages s) as [|image rest IH]; simpl; [done|].
    rewrite lookup_empty. lia.
Qed.

Lemma totalResizedSize_bounds_witness :
  (forall image, In image (originalImages threeImages) -> 0 <= File.size (ImageData.file image)) /\
  0 <= totalResizedSize threeImages <= originalBytes (originalImages threeImages) /\
  (resizedImages threeImages = ∅ -> totalResizedSize threeImages = 0).
Proof.
  assert (forall image, In image (originalImages threeImages) ->
            0 <= File.size (ImageData.file image)) as Hsizes.
  { intros image [<-|[<-|[<-|[]]]]; simpl; lia. }
  split; [exact Hsizes|].
  apply (totalResizedSize_bounds threeImages Hsizes).
Defined.

(** X21. After a batch in which every request succeeded (with non-empty
    object URLs) the size shown is the total size of the uploaded
    originals: the sizes of the resized results are never looked at. *)
Theorem totalResizedSize_after_success (toString : double -> string) (s : State)
    (urls : list string) :
  originalImages s <> [] ->
  length urls = length (originalImages s) ->
  Forall (fun url => url <> "") urls ->
  totalResizedSize (handleResize toString (map ResponseOk urls) s).1.1
    = originalBytes (originalImages s).
Proof.
  intros Hnonempty Hlen Hurls.
  pose proof (successful_batch_replaces_cache_core toString s urls Hnonempty Hlen) as Hbatch.
  destruct (handleResize toString (map ResponseOk urls) s) as [[s' sent] waiting].
  destruct Hbatch as (_ & _ & _ & Horig & _ & Hcache & Hkeys). simpl.
  rewrite totalResizedSize_sum, Horig. unfold originalBytes.
  assert (forall image, In image (originalImages s) ->
            is_Some (cached s' (ImageData.id image))) as Hcached.
  { intros image Hin. unfold cached.
    destruct (proj2 (Hkeys (ImageData.id image))) as [url Hurl]; [eauto|].
    rewrite Hurl. rewrite Hcache in Hurl.
    apply collect_values in Hurl as [Hempty|Hin']; [by rewrite lookup_empty in Hempty|].
    rewrite Forall_forall in Hurls. apply list_elem_of_In in Hin'.
    specialize (Hurls url Hin').
    destruct (String.eqb_spec url ""); [done | eauto]. }
  clear Hkeys Hcache Horig Hnonempty Hlen.
  induction (originalImages s) as [|image rest IH]; simpl; [done|].
  destruct (Hcached image (or_introl eq_refl)) as [url ->].
  f_equal. apply IH. intros other Hin. apply Hcached. by right.
Qed.

Lemma totalResizedSize_after_success_witness :
  (originalImages threeImages <> [] /\
   length ["blob:1"; "blob:2"; "blob:3"] = length (originalImages threeImages) /\
   Forall (fun url => url <> "") ["blob:1"; "blob:2"; "blob:3"]) /\
  totalResizedSize
    (handleResize integralToString (map ResponseOk ["blob:1"; "blob:2"; "blob:3"]) threeImages).1.1
    = originalBytes (originalImages threeImages).
Proof.
  assert (Forall (fun url : string => url <> "") ["blob:1"; "blob:2"; "blob:3"]) as Hurls.
  { repeat constructor; discriminate. }
  split; [split; [discriminate | split; [reflexivity | exact Hurls]]|].
  apply (totalResizedSize_after_success integralToString threeImages
           ["blob:1"; "blob:2"; "blob:3"]); [discriminate | reflexivity | exact Hurls].
Defined.

Lemma fixedUnits_near (num den : Z) (f : nat) :
  0 < den ->
  let n := fixedUnits num den f in
  - den < 2 * (den * n - num * 10 ^ Z.of_nat f) <= den.
Proof.
  intros Hden. unfold fixedUnits.
  pose proof (Z.div_mod (2 * num * 10 ^ Z.of_nat f + den) (2 * den)) as Hdiv.
  pose proof (Z.mod_pos_bound (2 * num * 10 ^ Z.of_nat f + den) (2 * den)) as Hmod.
  simpl. lia.
Qed.

(** X22. The size label: below 1024 bytes the exact count in B; from 1024
    bytes to just under 1 MiB the size in KiB rounded to one decimal (off
    by at most 0.05, the figure running from 1.0 up to 1024.0, since the
    unit is chosen before rounding); from 1 MiB on the size in MiB rounded
    to two decimals (off by at most 0.005). *)
Theorem formatFileSize_units (size : Z) :
  (size < 1024 -> formatFileSize size = digitsOfZ size +:+ " B") /\
  (1024 <= size < 1024 * 1024 ->
   exists n,
     formatFileSize size = showFixed n 1 +:+ " KB" /\
     10 <= n <= 10240 /\
     - 1024 < 2 * (1024 * n - 10 * size) <= 1024) /\
  (1024 * 1024 <= size ->
   exists n,
     formatFileSize size = showFixed n 2 +:+ " MB" /\
     100 <= n /\
     - (1024 * 1024) < 2 * (1024 * 1024 * n - 100 * size) <= 1024 * 1024).
Proof.
  unfold formatFileSize. split; [|split].
  - intros Hsmall. destruct (Z.ltb_spec size 1024); [done | lia].
  - intros Hrange. destruct (Z.ltb_spec size 1024); [lia|].
    destruct (Z.ltb_spec size (1024 * 1024)); [|lia].
    exists (fixedUnits size 1024 1). split; [done|].
    pose proof (fixedUnits_near size 1024 1 ltac:(lia)) as Hnear. simpl in Hnear.
    change (10 ^ Z.of_nat 1) with 10 in Hnear. lia.
  - intros Hlarge. destruct (Z.ltb_spec size 1024); [lia|].
    destruct (Z.ltb_spec size (1024 * 1024)); [lia|].
    exists (fixedUnits size (1024 * 1024) 2). split; [done|].
    pose proof (fixedUnits_near size (1024 * 1024) 2 ltac:(lia)) as Hnear. simpl in Hnear.
    change (10 ^ Z.of_nat 2) with 100 in Hnear. lia.
Qed.

Lemma formatFileSize_units_witness :
  (1024 <= 1536 < 1024 * 1024) /\
  exists n,
    formatFileSize 1536 = showFixed n 1 +:+ " KB" /\
    10 <= n <= 10240 /\
    - 1024 < 2 * (1024 * n - 10 * 1536) <= 1024.
Proof.
  split; [lia|].
  apply (proj1 (proj2 (formatFileSize_units 1536))). lia.
Defined.

Example formatFileSize_samples :
  formatFileSize 1000 = "1000 B" /\
  formatFileSize 1536 = "1.5 KB" /\
  formatFileSize 1048575 = "1024.0 KB" /\
  formatFileSize (5 * 1024 * 1024) = "5.00 MB" /\
  formatFileSize 1100000 = "1.05 MB".
Proof. vm_compute. repeat split. Qed.

(** *** Settings and later uploads *)

(** X23. Files added to a session that already holds an image never
    change the shared settings, however many of them are accepted and
    whatever their dimensions are. *)
Theorem later_uploads_keep_settings (fileArray : list File.t) (decoded : list Loaded)
    (s : State) :
  originalImages s <> [] ->
  resizeOptions (stageFiles fileArray decoded s) = resizeOptions s.
Proof.
  intros Hnonempty. unfold stageFiles.
  pose proof (PageFacts.handleFileSelect_seenLength fileArray s) as Hseen.
  assert (resizeOptions (handleFileSelect fileArray s).1 = resizeOptions s) as Hopts.
  { unfold handleFileSelect. destruct (_ >? _); [done|].
    pose proof (PageFacts.forEachFile_state (length (originalImages s)) fileArray false s) as Hstate.
    destruct (forEachFile _ fileArray false s) as [[hasError s'] tasks].
    destruct Hstate as (_ & _ & _ & Hkeep & _). destruct hasError; done. }
  destruct (handleFileSelect fileArray s) as [s' tasks]. simpl in *.
  rewrite PageFacts.completeLoads_none_seed; [done|].
  apply Forall_forall. intros load Hin.
  apply list_elem_of_In, in_zip_tasks in Hin.
  rewrite Forall_forall in Hseen. rewrite (Hseen load.1) by (by apply list_elem_of_In).
  destruct (originalImages s); done.
Qed.

Lemma later_uploads_keep_settings_witness :
  originalImages (stageFiles [fileA] [loadedA] initialState) <> [] /\
  resizeOptions (stageFiles [fileB; fileC] [loadedB; loadedC]
                   (stageFiles [fileA] [loadedA] initialState))
    = resizeOptions (stageFiles [fileA] [loadedA] initialState).
Proof.
  split; [discriminate|].
  apply (later_uploads_keep_settings [fileB; fileC] [loadedB; loadedC]
           (stageFiles [fileA] [loadedA] initialState)).
  discriminate.
Defined.

End PageMore.
